(** * discord-irc: the relay controller of [lib/bot.js]

    A shallow embedding of the [Bot] class: the channel mapping built by the
    constructor, the text transform [parseText], the two relay paths
    [sendToIRC] and [sendToDiscord], and the IRC event listeners of
    [attachListeners].

    Conventions of the embedding.
    - A JavaScript string is a [string]; a character is an [ascii] and its
      char code is [nat_of_ascii] (code units 0..255).
    - A JavaScript object used as a map is the list of its own enumerable
      properties, in enumeration order ([JsObject]); a lookup [o[k]] that
      finds no own property goes on to the members every plain object
      inherits from [Object.prototype].
    - The calls on the two protocol clients and on the logger are recorded,
      in program order, in a trace of [effect]s; a handler either completes
      or throws, as the JavaScript does ([M]). *)

From Stdlib Require Import String Ascii List Arith Bool Lia.
Import ListNotations.

Local Open Scope string_scope.
Local Open Scope list_scope.
Local Open Scope nat_scope.

Infix "+:+" := String.append (at level 60, right associativity).

(** ** Characters and strings *)

Definition LF : ascii := "010"%char.
Definition CR : ascii := "013"%char.

Definition code_in (lo hi : nat) (c : ascii) : bool :=
  (lo <=? nat_of_ascii c) && (nat_of_ascii c <=? hi).

(** [\d] of a JavaScript regular expression. *)
Definition is_digit (c : ascii) : bool := code_in 48 57 c.

(** [\w]: [A-Za-z0-9_]. *)
Definition is_word (c : ascii) : bool :=
  code_in 65 90 c || code_in 97 122 c || is_digit c || (nat_of_ascii c =? 95).

(** [\s] on the code units 0..255: TAB, LF, VT, FF, CR, space, NBSP. *)
Definition is_space (c : ascii) : bool :=
  code_in 9 13 c || (nat_of_ascii c =? 32) || (nat_of_ascii c =? 160).

(** [String.prototype.toLowerCase] on one code unit: A-Z and the upper-case
    letters of Latin-1 (all of 192..222 but the multiplication sign). *)
Definition lower_char (c : ascii) : ascii :=
  if code_in 65 90 c || (code_in 192 222 c && negb (nat_of_ascii c =? 215))
  then ascii_of_nat (nat_of_ascii c + 32)
  else c.

Fixpoint toLowerCase (s : string) : string :=
  match s with
  | EmptyString => EmptyString
  | String c s' => String (lower_char c) (toLowerCase s')
  end.

(** [s.split(' ')[0]]: the part of [s] before its first space. *)
Fixpoint split_space_0 (s : string) : string :=
  match s with
  | EmptyString => EmptyString
  | String c s' => if Ascii.eqb c " " then EmptyString else String c (split_space_0 s')
  end.

(** [s.slice(1)]. *)
Definition slice1 (s : string) : string :=
  match s with
  | EmptyString => EmptyString
  | String _ s' => s'
  end.

(** [s[0]]: the one-character string at index 0, [None] for [undefined]. *)
Definition char0 (s : string) : option string :=
  match s with
  | EmptyString => None
  | String c _ => Some (String c EmptyString)
  end.

(** [s.charCodeAt(0)], [None] for [NaN]. *)
Definition charCodeAt0 (s : string) : option nat :=
  match s with
  | EmptyString => None
  | String c _ => Some (nat_of_ascii c)
  end.

(** The characters of a string, for statements about its contents. *)
Fixpoint chars (s : string) : list ascii :=
  match s with
  | EmptyString => []
  | String c s' => c :: chars s'
  end.

(** [join(' ')] of an array of strings. *)
Fixpoint join_space (l : list string) : string :=
  match l with
  | [] => ""
  | [x] => x
  | x :: l' => x +:+ " " +:+ join_space l'
  end.

(** *** [String.prototype.replace] with a string pattern

    Only the first occurrence of the pattern is replaced, and the
    replacement text is expanded by [GetSubstitution]: [$$] is a dollar,
    [$&] the matched text, [$`] the text before the match and [$'] the text
    after it. A string pattern has no captures, so any other [$] is kept. *)

Fixpoint GetSubstitution (matched before after repl : string) : string :=
  match repl with
  | EmptyString => EmptyString
  | String "$" (String c r as r1) =>
      if Ascii.eqb c "$" then String "$" (GetSubstitution matched before after r)
      else if Ascii.eqb c "&" then matched +:+ GetSubstitution matched before after r
      else if Ascii.eqb c "`" then before +:+ GetSubstitution matched before after r
      else if Ascii.eqb c "'" then after +:+ GetSubstitution matched before after r
      else String "$" (GetSubstitution matched before after r1)
  | String c r => String c (GetSubstitution matched before after r)
  end.

Definition replace (pattern repl s : string) : string :=
  match index 0 pattern s with
  | None => s
  | Some i =>
      let before := substring 0 i s in
      let after := substring (i + String.length pattern)
                     (String.length s - (i + String.length pattern)) s in
      before +:+ GetSubstitution pattern before after repl +:+ after
  end.

(** *** [String.prototype.replace] with a global regular expression

    The regular expression is given by its matcher: at a position, the
    length of the match there and what the match is replaced by, or [None]
    when the expression does not match at that position. Matching resumes
    after each match ([skip] counts the characters of the current match
    still to be consumed); unmatched characters are copied. None of the
    expressions of [bot.js] matches the empty string. *)

Fixpoint replace_global_from (matcher : string -> option (nat * string))
    (skip : nat) (s : string) : string :=
  match s with
  | EmptyString => EmptyString
  | String c s' =>
      match skip with
      | S k => replace_global_from matcher k s'
      | O =>
          match matcher s with
          | Some (n, r) => r +:+ replace_global_from matcher (pred n) s'
          | None => String c (replace_global_from matcher 0 s')
          end
      end
  end.

Definition replace_global (matcher : string -> option (nat * string)) (s : string) : string :=
  replace_global_from matcher 0 s.

(** [/\n|\r\n|\r/]: the alternatives are tried in this order. *)
Definition line_break_at (s : string) : option nat :=
  match s with
  | String c s' =>
      if Ascii.eqb c LF then Some 1
      else if Ascii.eqb c CR then
        match s' with
        | String c' _ => if Ascii.eqb c' LF then Some 2 else Some 1
        | EmptyString => Some 1
        end
      else None
  | EmptyString => None
  end.

(** [text.replace(/\n|\r\n|\r/g, ' ')]. *)
Definition fold_lines (s : string) : string :=
  replace_global (fun t => option_map (fun n => (n, " ")) (line_break_at t)) s.

(** [/<#(\d+)>/]: the length of the match at the head of [s] and the
    captured channel id. [\d+] is greedy and [>] is no digit, so the match
    takes the whole run of digits. *)
Fixpoint span (p : ascii -> bool) (s : string) : string * string :=
  match s with
  | EmptyString => (EmptyString, EmptyString)
  | String c s' =>
      if p c then let (run, rest) := span p s' in (String c run, rest)
      else (EmptyString, s)
  end.

Definition channel_ref_at (s : string) : option (nat * string) :=
  match s with
  | String "<" (String "#" t) =>
      match span is_digit t with
      | (String d ds, String ">" _) => Some (3 + String.length (String d ds), String d ds)
      | _ => None
      end
  | _ => None
  end.

(** [/@[^\s]+\b/]: after the [@], the greedy [[^\s]+] takes the whole run of
    non-space characters and gives characters back until a word boundary
    follows. [last_boundary run] is the greatest [k >= 1] such that [\b]
    holds after the first [k] characters of [run] (what follows the run is
    a space or the end of the input, which is no word character). *)
Fixpoint last_boundary (run : string) : option nat :=
  match run with
  | EmptyString => None
  | String c r =>
      match last_boundary r with
      | Some k => Some (S k)
      | None =>
          let next_is_word := match r with String c' _ => is_word c' | EmptyString => false end in
          if xorb (is_word c) next_is_word then Some 1 else None
      end
  end.

Definition at_name_at (s : string) : option string :=
  match s with
  | String "@" t =>
      match last_boundary (fst (span (fun c => negb (is_space c)) t)) with
      | Some k => Some (substring 0 k t)
      | None => None
      end
  | _ => None
  end.

(** ** JavaScript objects used as maps *)

Module JsObject.
Definition t (V : Type) := list (string * V).

Fixpoint get {V} (o : t V) (k : string) : option V :=
  match o with
  | [] => None
  | (k', v) :: o' => if String.eqb k' k then Some v else get o' k
  end.

(** The members a plain object inherits from [Object.prototype]: eleven
    functions and the accessor [__proto__]. *)
Definition prototype_members : list string :=
  ["constructor"; "__defineGetter__"; "__defineSetter__"; "hasOwnProperty";
   "__lookupGetter__"; "__lookupSetter__"; "isPrototypeOf"; "propertyIsEnumerable";
   "toString"; "valueOf"; "__proto__"; "toLocaleString"].

Definition inherited (k : string) : bool := existsb (String.eqb k) prototype_members.

(** What [o[k]] evaluates to: the own property, else the inherited member
    of that name (a function, or the prototype itself for [__proto__]),
    else [undefined]. *)
Inductive value (V : Type) :=
| undefined
| own (v : V)
| member (k : string).
Arguments undefined {V}.
Arguments own {V} v.
Arguments member {V} k.

Definition lookup {V} (o : t V) (k : string) : value V :=
  match get o k with
  | Some v => own v
  | None => if inherited k then member k else undefined
  end.

(** Storing a data property: an existing property keeps its place, a new
    one is last. *)
Fixpoint assign {V} (o : t V) (k : string) (v : V) : t V :=
  match o with
  | [] => [(k, v)]
  | (k', v') :: o' =>
      if String.eqb k' k then (k', v) :: o' else (k', v') :: assign o' k v
  end.

(** [o[k] = v] for a primitive [v]. The key [__proto__], unless it is an
    own property, reaches the inherited setter, which ignores a value that
    is no object: nothing is stored. *)
Definition set {V} (o : t V) (k : string) (v : V) : t V :=
  if String.eqb k "__proto__" then
    match get o k with
    | Some _ => assign o k v
    | None => o
    end
  else assign o k v.

Definition keys {V} (o : t V) : list string := map fst o.
Definition values {V} (o : t V) : list V := map snd o.

(** [_.forOwn(o, f)] where [f] updates an accumulator. *)
Definition forOwn {V A} (o : t V) (f : A -> V -> string -> A) (a : A) : A :=
  fold_left (fun acc kv => f acc (snd kv) (fst kv)) o a.

(** [_.invert(o)]: [result[value] = key] for each own property, in order. *)
Definition invert (o : t string) : t string :=
  forOwn o (fun result value key => set result value key) [].

(** An object has one property per key. *)
Definition wf {V} (o : t V) : Prop := NoDup (keys o).

(** The properties of [o] that an assignment to a fresh object stores: all
    but [__proto__]. *)
Definition storable {V} (o : t V) : t V :=
  filter (fun kv => negb (String.eqb (fst kv) "__proto__")) o.
End JsObject.

(** A string or [undefined] in a condition: [undefined] and [''] are falsy. *)
Definition truthy (v : option string) : option string :=
  match v with
  | Some EmptyString => None
  | _ => v
  end.

(** ** The collaborators *)

Record User := { id : string; username : string; mention : string }.
Record Channel := { channel_id : string; name : string }.
Record Attachment := { url : string }.

Record Message := {
  author : User;
  channel : Channel;
  content : string;
  mentions : list User;
  attachments : option (list Attachment)
}.

(** The Discord client as the bridge sees it: its own user and the two
    caches, queried by [get(key, value)] ([None] when nothing is found). *)
Record Client := {
  user : User;
  channels_get : string -> string -> option Channel;
  users_get : string -> string -> option User
}.

Inductive level := debug | info | error.

Inductive effect :=
| IrcSay (target text : string)                 (* ircClient.say *)
| IrcSend (args : list string)                  (* ircClient.send *)
| IrcJoin (chan : string)                       (* ircClient.join *)
| DiscordSendMessage (chan : Channel) (text : string) (* discord.sendMessage *)
| Log (lvl : level) (msg : string).             (* logger.debug/info/error *)

Inductive exn :=
| TypeError (msg : string)
| ConfigurationError (msg : string).

Inductive result (A : Type) :=
| Ok (a : A)
| Throw (e : exn).
Arguments Ok {A} a.
Arguments Throw {A} e.

(** A computation: the trace of what it did, then how it ended. *)
Definition M (A : Type) : Type := list effect * result A.

Definition ret {A} (a : A) : M A := ([], Ok a).

Definition bind {A B} (m : M A) (f : A -> M B) : M B :=
  match m with
  | (t, Ok a) => let (t', r) := f a in (t ++ t', r)
  | (t, Throw e) => (t, Throw e)
  end.

Definition emit (e : effect) : M unit := ([e], Ok tt).
Definition lift {A} (r : result A) : M A := ([], r).
Definition logger (lvl : level) (msg : string) : M unit := emit (Log lvl msg).

Notation "x <- c1 ;; c2" := (bind c1 (fun x => c2))
  (at level 61, c1 at next level, right associativity).
Notation "c1 ;; c2" := (bind c1 (fun _ => c2))
  (at level 61, right associativity).

(** [l.forEach(f)] and the [for] loops over an array. *)
Fixpoint forEach {A} (l : list A) (f : A -> M unit) : M unit :=
  match l with
  | [] => ret tt
  | x :: l' => f x ;; forEach l' f
  end.

Definition trace {A} (m : M A) : list effect := fst m.
Definition outcome {A} (m : M A) : result A := snd m.

Definition is_send (e : effect) : bool :=
  match e with
  | IrcSay _ _ | IrcSend _ | DiscordSendMessage _ _ => true
  | _ => false
  end.

Definition is_log (e : effect) : bool :=
  match e with Log _ _ => true | _ => false end.

Definition is_join (e : effect) : bool :=
  match e with IrcJoin _ => true | _ => false end.

(** What a computation sent to either network, and what it logged. *)
Definition sends {A} (m : M A) : list effect := filter is_send (trace m).
Definition logs {A} (m : M A) : list effect := filter is_log (trace m).
Definition joins {A} (m : M A) : list effect := filter is_join (trace m).

(** [replace] with a global regular expression and a callback that may
    throw: the first exception ends the replacement. *)
Fixpoint replace_global_fn_from (matcher : string -> option (nat * string))
    (callback : string -> result string) (skip : nat) (s : string) : result string :=
  match s with
  | EmptyString => Ok EmptyString
  | String c s' =>
      match skip with
      | S k => replace_global_fn_from matcher callback k s'
      | O =>
          match matcher s with
          | Some (n, capture) =>
              match callback capture with
              | Ok r =>
                  match replace_global_fn_from matcher callback (pred n) s' with
                  | Ok out => Ok (r +:+ out)
                  | Throw e => Throw e
                  end
              | Throw e => Throw e
              end
          | None =>
              match replace_global_fn_from matcher callback 0 s' with
              | Ok out => Ok (String c out)
              | Throw e => Throw e
              end
          end
      end
  end.

Definition replace_global_fn matcher callback s := replace_global_fn_from matcher callback 0 s.

(** ** The bot *)

Definition REQUIRED_FIELDS : list string :=
  ["server"; "nickname"; "channelMapping"; "discordToken"].

Definition NICK_COLORS : list string :=
  ["light_blue"; "dark_blue"; "light_red"; "dark_red"; "light_green";
   "dark_green"; "magenta"; "light_magenta"; "orange"; "yellow"; "cyan"; "light_cyan"].

(** The [options] object given to the constructor; [None] is a field that
    is absent (or [null]). *)
Module Options.
Record t := {
  server : option string;
  nickname : option string;
  channelMapping : option (JsObject.t string);
  discordToken : option string;
  commandCharacters : option (list string);
  ircNickColor : option bool;
  relayChannelJoins : option bool;
  relayChannelParts : option bool;
  relayChannelQuits : option bool;
  relayChannelNames : option bool;
  autoSendCommands : option (list (list string))
}.
End Options.

Record Bot := {
  discord : Client;
  server : string;
  nickname : string;
  discordToken : string;
  commandCharacters : list string;
  ircNickColor : bool;
  channels : list string;
  relayChannelJoins : bool;
  relayChannelParts : bool;
  relayChannelQuits : bool;
  relayChannelNames : bool;
  channelMapping : JsObject.t string;
  invertedMapping : JsObject.t string;
  autoSendCommands : list (list string)
}.

(** [x || d] and [x == null ? d : x] on an optional field. *)
Definition or_default {A} (x : option A) (d : A) : A :=
  match x with Some a => a | None => d end.

(** The nick colour: [(username.charCodeAt(0) + username.length) %
    NICK_COLORS.length]. The char code of an empty name is [NaN], and so
    is the index. *)
Definition colorIndex (username : string) : option nat :=
  match charCodeAt0 username with
  | Some code => Some ((code + String.length username) mod List.length NICK_COLORS)
  | None => None
  end.

(** [NICK_COLORS[colorIndex]], [None] for [undefined]. *)
Definition nickColor (username : string) : option string :=
  match colorIndex username with
  | Some i => nth_error NICK_COLORS i
  | None => None
  end.

Section Bridge.

(** [validateChannelMapping] of [./validators], which throws a
    [ConfigurationError] on a mapping it refuses. *)
Variable validateChannelMapping : JsObject.t string -> result unit.

(** [irc.colors.wrap(color, text)] of the IRC client library. *)
Variable colors_wrap : option string -> string -> string.

(** [options[field]] is truthy, for the fields of [REQUIRED_FIELDS]. *)
Definition has_field (options : Options.t) (field : string) : bool :=
  if String.eqb field "server" then
    match truthy (Options.server options) with Some _ => true | None => false end
  else if String.eqb field "nickname" then
    match truthy (Options.nickname options) with Some _ => true | None => false end
  else if String.eqb field "channelMapping" then
    match Options.channelMapping options with Some _ => true | None => false end
  else if String.eqb field "discordToken" then
    match truthy (Options.discordToken options) with Some _ => true | None => false end
  else false.

(** The first required field that is missing, as [forEach] meets them. *)
Definition missing_field (options : Options.t) : option string :=
  find (fun field => negb (has_field options field)) REQUIRED_FIELDS.

(** The constructor. [client] is the [new discord.Client] it creates. *)
Definition constructor (client : Client) (options : Options.t) : result Bot :=
  match missing_field options with
  | Some field => Throw (ConfigurationError ("Missing configuration field " +:+ field))
  | None =>
      let mapping := or_default (Options.channelMapping options) [] in
      match validateChannelMapping mapping with
      | Throw e => Throw e
      | Ok _ =>
          (* Remove channel passwords from the mapping and lowercase IRC channel names *)
          let channelMapping :=
            JsObject.forOwn mapping
              (fun this_channelMapping ircChan discordChan =>
                 JsObject.set this_channelMapping discordChan
                   (toLowerCase (split_space_0 ircChan)))
              [] in
          Ok {| discord := client;
                server := or_default (Options.server options) "";
                nickname := or_default (Options.nickname options) "";
                discordToken := or_default (Options.discordToken options) "";
                commandCharacters := or_default (Options.commandCharacters options) [];
                ircNickColor := or_default (Options.ircNickColor options) true;
                channels := JsObject.values mapping;
                relayChannelJoins := or_default (Options.relayChannelJoins options) false;
                relayChannelParts := or_default (Options.relayChannelParts options) false;
                relayChannelQuits := or_default (Options.relayChannelQuits options) false;
                relayChannelNames := or_default (Options.relayChannelNames options) false;
                channelMapping := channelMapping;
                invertedMapping := JsObject.invert channelMapping;
                autoSendCommands := or_default (Options.autoSendCommands options) [] |}
      end
  end.

(** [parseText]: the mentions carried by the message, then the line
    breaks, then the channel references. *)
Definition parseText (b : Bot) (message : Message) : result string :=
  let text :=
    fold_left
      (fun content mention_ =>
         replace ("<@!" +:+ id mention_ +:+ ">") ("@" +:+ username mention_)
           (replace ("<@" +:+ id mention_ +:+ ">") ("@" +:+ username mention_) content))
      (mentions message) (content message) in
  replace_global_fn channel_ref_at
    (fun channelId =>
       match channels_get (discord b) "id" channelId with
       | Some channel_ => Ok ("#" +:+ name channel_)
       | None => Throw (TypeError "Cannot read property 'name' of null")
       end)
    (fold_lines text).

(** [this.commandCharacters.indexOf(message[0]) !== -1]. *)
Definition isCommandMessage (b : Bot) (message : string) : bool :=
  match char0 message with
  | Some c => existsb (String.eqb c) (commandCharacters b)
  | None => false
  end.

(** [text.replace(/@[^\s]+\b/g, match => ...)] of [sendToDiscord]: an
    [@name] of a known Discord user becomes that user's mention. *)
Definition withMentions (b : Bot) (text : string) : string :=
  replace_global
    (fun s =>
       match at_name_at s with
       | Some uname =>
           Some (S (String.length uname),
                 match users_get (discord b) "username" uname with
                 | Some user_ => mention user_
                 | None => "@" +:+ uname
                 end)
       | None => None
       end)
    text.

Definition sendToDiscord (b : Bot) (author_ channel_ text : string) : M unit :=
  match JsObject.lookup (invertedMapping b) (toLowerCase channel_) with
  | JsObject.undefined | JsObject.own EmptyString => ret tt
  | JsObject.own discordChannelName =>
      (* #channel -> channel before retrieving: *)
      match channels_get (discord b) "name" (slice1 discordChannelName) with
      | None =>
          logger info "Tried to send a message to a channel the bot isn't in: "
      | Some discordChannel =>
          (* Add bold formatting: *)
          let withAuthor := "**<" +:+ author_ +:+ ">** " +:+ withMentions b text in
          logger debug "Sending message to Discord" ;;
          emit (DiscordSendMessage discordChannel withAuthor)
      end
  | JsObject.member _ =>
      (* an inherited member is truthy and has no [slice] *)
      lift (Throw (TypeError "discordChannelName.slice is not a function"))
  end.

(** The author as shown on IRC: coloured when [ircNickColor] is set. *)
Definition displayUsername (b : Bot) (username_ : string) : string :=
  if ircNickColor b then colors_wrap (nickColor username_) username_
  else username_.

(** The name looked up in [channelMapping] begins with [#], which no
    member of [Object.prototype] does: the lookup is that of the own
    property. *)
Definition sendToIRC (b : Bot) (message : Message) : M unit :=
  let author_ := author message in
  (* Ignore messages sent by the bot itself: *)
  if String.eqb (id author_) (id (user (discord b))) then ret tt else
  let channelName := "#" +:+ name (channel message) in
  let ircChannel := JsObject.get (channelMapping b) channelName in
  logger debug "Channel Mapping" ;;
  match truthy ircChannel with
  | Some ircChannel =>
      let username_ := username author_ in
      text <- lift (parseText b message) ;;
      let displayUsername := displayUsername b username_ in
      if isCommandMessage b text then
        let command := slice1 text in
        if String.eqb command "names" then
          logger debug "Sending raw command to IRC" ;;
          emit (IrcSend ["NAMES"; ircChannel])
        else if String.eqb command "help" then
          sendToDiscord b "Relay/Help" ircChannel "Type .names to list users in this channel"
        else
          let prelude := "Command sent from Discord by " +:+ username_ +:+ ":" in
          emit (IrcSay ircChannel prelude) ;;
          emit (IrcSay ircChannel text)
      else
        (if String.eqb text "" then ret tt
         else
           let text := "<" +:+ displayUsername +:+ "> " +:+ text in
           logger debug "Sending message to IRC" ;;
           emit (IrcSay ircChannel text)) ;;
        match attachments message with
        | Some (a :: l) =>
            forEach (a :: l) (fun a =>
              let urlMessage := "<" +:+ displayUsername +:+ "> " +:+ url a in
              logger debug "Sending attachment URL to IRC" ;;
              emit (IrcSay ircChannel urlMessage))
        | _ => ret tt
        end
  | None => ret tt
  end.

(** *** The listeners of [attachListeners] *)

Definition on_discord_ready : M unit := logger debug "Connected to Discord".

Definition on_irc_error : M unit := logger error "Received error event from IRC".

Definition on_discord_error : M unit := logger error "Received error event from Discord".

Definition on_discord_message (b : Bot) (message : Message) : M unit :=
  sendToIRC b message.

Definition on_registered (b : Bot) : M unit :=
  logger debug "Registered event: " ;;
  forEach (autoSendCommands b) (fun element => emit (IrcSend element)).

Definition on_message (b : Bot) (author_ to text : string) : M unit :=
  sendToDiscord b author_ to text.

Definition on_notice (b : Bot) (author_ to text : string) : M unit :=
  sendToDiscord b author_ to ("*" +:+ text +:+ "*").

Definition on_action (b : Bot) (author_ to text : string) : M unit :=
  sendToDiscord b author_ to ("_" +:+ text +:+ "_").

Definition on_invite (b : Bot) (channel_ from : string) : M unit :=
  logger debug "Received invite:" ;;
  match JsObject.lookup (invertedMapping b) channel_ with
  | JsObject.undefined | JsObject.own EmptyString =>
      logger debug "Channel not found in config, not joining:"
  | _ =>
      emit (IrcJoin channel_) ;;
      logger debug "Joining channel:"
  end.

Definition on_join (b : Bot) (channel_ nick : string) : M unit :=
  logger debug "Channel join" ;;
  if relayChannelJoins b then
    sendToDiscord b (channel_ +:+ "/join") channel_ (nick +:+ " joined " +:+ channel_)
  else ret tt.

Definition on_part (b : Bot) (channel_ nick : string) (reason : option string) : M unit :=
  logger debug "Channel part" ;;
  if relayChannelParts b then
    let reason := or_default reason "" in (* Set the reason to blank if it's undefined *)
    sendToDiscord b (channel_ +:+ "/part") channel_
      (nick +:+ " parted " +:+ channel_ +:+ ": " +:+ reason)
  else ret tt.

Definition on_kick (b : Bot) (channel_ nick by_ : string) (reason : option string) : M unit :=
  logger debug "Channel kick" ;;
  if relayChannelParts b then
    let reason := or_default reason "" in
    sendToDiscord b (channel_ +:+ "/kick") channel_
      (nick +:+ " kicked from " +:+ channel_ +:+ " by " +:+ by_ +:+ ": " +:+ reason)
  else ret tt.

Definition on_quit (b : Bot) (nick : string) (reason : option string)
    (channels_ : list string) : M unit :=
  logger debug "Channel quit" ;;
  if relayChannelQuits b then
    let reason := or_default reason "" in
    forEach channels_ (fun channels_i =>
      sendToDiscord b (channels_i +:+ "/quit") channels_i (nick +:+ " quit: " +:+ reason))
  else ret tt.

Definition on_kill (b : Bot) (nick : string) (reason : option string)
    (channels_ : list string) : M unit :=
  logger debug "Channel kill" ;;
  if relayChannelQuits b then
    let reason := or_default reason "" in
    forEach channels_ (fun channels_i =>
      sendToDiscord b (channels_i +:+ "/kill") channels_i (nick +:+ " killed: " +:+ reason))
  else ret tt.

Definition on_names (b : Bot) (channel_ : string) (nicks : JsObject.t string) : M unit :=
  logger debug "Channel names" ;;
  if relayChannelNames b then
    let nickList := join_space (JsObject.keys nicks) in
    sendToDiscord b channel_ channel_ ("Users: " +:+ nickList)
  else ret tt.

End Bridge.

Arguments sendToIRC colors_wrap b message : simpl never.

(** ** A bridge to run the definitions on

    The configuration [{"#general": "#Relay secret", "#random": "#other"}]
    with [.] as the command character and quits relayed, on a Discord
    client that knows the channels [general] and [random] and the users
    [bridge] (the bot itself), [alice] and [bob]. *)
Module Sample.
Definition bridge_user := {| id := "1"; username := "bridge"; mention := "<@1>" |}.
Definition alice := {| id := "2"; username := "alice"; mention := "<@2>" |}.
Definition bob := {| id := "3"; username := "bob"; mention := "<@3>" |}.
Definition general := {| channel_id := "100"; name := "general" |}.
Definition random := {| channel_id := "101"; name := "random" |}.

Definition find_by {A} (field : A -> string) (value : string) (l : list A) : option A :=
  find (fun x => String.eqb (field x) value) l.

Definition client : Client :=
  {| user := bridge_user;
     channels_get := fun key value =>
       if String.eqb key "id" then find_by channel_id value [general; random]
       else if String.eqb key "name" then find_by name value [general; random]
       else None;
     users_get := fun key value =>
       if String.eqb key "username" then find_by username value [bridge_user; alice; bob]
       else None |}.

(** A client for which every channel id resolves, to a channel [lobby]. *)
Definition lobby_client : Client :=
  {| user := bridge_user;
     channels_get := fun _ value => Some {| channel_id := value; name := "lobby" |};
     users_get := fun _ _ => None |}.

Definition mapping : JsObject.t string :=
  [("#general", "#Relay secret"); ("#random", "#other")].

Definition options : Options.t :=
  {| Options.server := Some "irc.example.org";
     Options.nickname := Some "bridge";
     Options.channelMapping := Some mapping;
     Options.discordToken := Some "token";
     Options.commandCharacters := Some ["."];
     Options.ircNickColor := None;
     Options.relayChannelJoins := None;
     Options.relayChannelParts := None;
     Options.relayChannelQuits := Some true;
     Options.relayChannelNames := None;
     Options.autoSendCommands := None |}.

Definition validate (_ : JsObject.t string) : result unit := Ok tt.

(** A stand-in for [irc.colors.wrap]: the colour name in brackets. *)
Definition wrap (color : option string) (text : string) : string :=
  match color with
  | Some c => "[" +:+ c +:+ "]" +:+ text
  | None => text
  end.

Definition bot : Bot :=
  match constructor validate client options with
  | Ok b => b
  | Throw _ =>
      {| discord := client; server := ""; nickname := ""; discordToken := "";
         commandCharacters := []; ircNickColor := true; channels := [];
         relayChannelJoins := false; relayChannelParts := false;
         relayChannelQuits := false; relayChannelNames := false;
         channelMapping := []; invertedMapping := []; autoSendCommands := [] |}
  end.

Definition message (a : User) (c : Channel) (body : string) : Message :=
  {| author := a; channel := c; content := body; mentions := []; attachments := None |}.

(** An empty body with two attachments. *)
Definition pictures : Message :=
  {| author := alice; channel := general; content := ""; mentions := [];
     attachments := Some [ {| url := "http://x/1.png" |}; {| url := "http://x/2.png" |} ] |}.

Definition with_client (c : Client) (b : Bot) : Bot :=
  {| discord := c; server := server b; nickname := nickname b;
     discordToken := discordToken b; commandCharacters := commandCharacters b;
     ircNickColor := ircNickColor b; channels := channels b;
     relayChannelJoins := relayChannelJoins b; relayChannelParts := relayChannelParts b;
     relayChannelQuits := relayChannelQuits b; relayChannelNames := relayChannelNames b;
     channelMapping := channelMapping b; invertedMapping := invertedMapping b;
     autoSendCommands := autoSendCommands b |}.
End Sample.

(** ** Vocabulary of the properties *)

Definition is_line_break (c : ascii) : bool := Ascii.eqb c LF || Ascii.eqb c CR.

(** A text without LF and without CR. *)
Definition single_line (s : string) : bool :=
  forallb (fun c => negb (is_line_break c)) (chars s).

(** The Discord channel an IRC channel is bridged to, as [sendToDiscord]
    finds it: through the inverse mapping, then by name in the client. *)
Definition bridged_to (b : Bot) (channel_ : string) : option Channel :=
  match truthy (JsObject.get (invertedMapping b) (toLowerCase channel_)) with
  | Some discordChannelName => channels_get (discord b) "name" (slice1 discordChannelName)
  | None => None
  end.

(** The lookup of the channel in the inverse table finds an inherited
    member, on which [sendToDiscord] throws. *)
Definition finds_member (b : Bot) (channel_ : string) : bool :=
  match JsObject.lookup (invertedMapping b) (toLowerCase channel_) with
  | JsObject.member _ => true
  | _ => false
  end.


(** Configurations at the edge: an IRC channel called [__proto__], and a
    Discord channel with the empty name. *)
Module Quirks.
Definition proto_options : Options.t :=
  {| Options.server := Some "irc.example.org";
     Options.nickname := Some "bridge";
     Options.channelMapping := Some [("#general", "__proto__ pw")];
     Options.discordToken := Some "token";
     Options.commandCharacters := Some ["."];
     Options.ircNickColor := None;
     Options.relayChannelJoins := None;
     Options.relayChannelParts := None;
     Options.relayChannelQuits := None;
     Options.relayChannelNames := None;
     Options.autoSendCommands := None |}.

Definition proto_bot : Bot :=
  match constructor Sample.validate Sample.client proto_options with
  | Ok b => b
  | Throw _ => Sample.bot
  end.


End Quirks.

(** The text has the character [c]. *)
Definition has_char (c : ascii) (s : string) : bool :=
  existsb (Ascii.eqb c) (chars s).

(** [s.slice(n)]. *)
Fixpoint drop (n : nat) (s : string) : string :=
  match n, s with
  | S k, String _ s' => drop k s'
  | _, _ => s
  end.

(** The names that [/@[^\s]+\b/g] finds in a text, one match after the
    other as the global replacement of [sendToDiscord] goes through it:
    [skip] characters of the last match are still to be passed over. *)
Fixpoint names_matched_from (skip : nat) (s : string) : list string :=
  match s with
  | EmptyString => []
  | String _ s' =>
      match skip with
      | S k => names_matched_from k s'
      | O =>
          match at_name_at s with
          | Some uname => uname :: names_matched_from (String.length uname) s'
          | None => names_matched_from 0 s'
          end
      end
  end.

Definition names_matched (text : string) : list string := names_matched_from 0 text.

(** The last key under which an object holds the value [v]. *)
Fixpoint last_key_of (o : JsObject.t string) (v : string) : option string :=
  match o with
  | [] => None
  | (k, w) :: o' =>
      match last_key_of o' v with
      | Some k' => Some k'
      | None => if String.eqb w v then Some k else None
      end
  end.

(** The body after the first step of [parseText], the replacement of the
    mention tokens of the users the message carries. *)
Definition mentions_resolved (message : Message) : string :=
  fold_left
    (fun content mention_ =>
       replace ("<@!" +:+ id mention_ +:+ ">") ("@" +:+ username mention_)
         (replace ("<@" +:+ id mention_ +:+ ">") ("@" +:+ username mention_) content))
    (mentions message) (content message).

(** The least configuration: the four required fields and nothing else. *)
Module Minimal.
Definition options : Options.t :=
  {| Options.server := Some "irc.example.org";
     Options.nickname := Some "bridge";
     Options.channelMapping := Some [("#general", "#Relay secret"); ("#lounge", "#relay")];
     Options.discordToken := Some "token";
     Options.commandCharacters := None;
     Options.ircNickColor := None;
     Options.relayChannelJoins := None;
     Options.relayChannelParts := None;
     Options.relayChannelQuits := None;
     Options.relayChannelNames := None;
     Options.autoSendCommands := None |}.

Definition bot : Bot :=
  match constructor Sample.validate Sample.client options with
  | Ok b => b
  | Throw _ => Sample.bot
  end.

(** The same with two raw commands to send on registration. *)
Definition identifying_options : Options.t :=
  {| Options.server := Some "irc.example.org";
     Options.nickname := Some "bridge";
     Options.channelMapping := Some Sample.mapping;
     Options.discordToken := Some "token";
     Options.commandCharacters := None;
     Options.ircNickColor := None;
     Options.relayChannelJoins := None;
     Options.relayChannelParts := None;
     Options.relayChannelQuits := None;
     Options.relayChannelNames := None;
     Options.autoSendCommands :=
       Some [["PRIVMSG"; "NickServ"; "IDENTIFY secret"]; ["MODE"; "bridge"; "+x"]] |}.

Definition identifying_bot : Bot :=
  match constructor Sample.validate Sample.client identifying_options with
  | Ok b => b
  | Throw _ => Sample.bot
  end.

(** The same with every event relayed. *)
Definition relaying_options : Options.t :=
  {| Options.server := Some "irc.example.org";
     Options.nickname := Some "bridge";
     Options.channelMapping := Some Sample.mapping;
     Options.discordToken := Some "token";
     Options.commandCharacters := None;
     Options.ircNickColor := Some false;
     Options.relayChannelJoins := Some true;
     Options.relayChannelParts := Some true;
     Options.relayChannelQuits := Some true;
     Options.relayChannelNames := Some true;
     Options.autoSendCommands := None |}.

Definition relaying_bot : Bot :=
  match constructor Sample.validate Sample.client relaying_options with
  | Ok b => b
  | Throw _ => Sample.bot
  end.
End Minimal.

(** * Properties *)

(** ** The mapping tables *)

Module JsObjectFacts.
Import JsObject.

Lemma get_assign_same {V} (o : t V) k v : get (assign o k v) k = Some v.
Proof.
  induction o as [|[k' v'] o IH]; simpl.
  - now rewrite String.eqb_refl.
  - destruct (String.eqb k' k) eqn:E; simpl; rewrite E; auto.
Qed.

Lemma get_assign_other {V} (o : t V) k k' v : k <> k' -> get (assign o k v) k' = get o k'.
Proof.
  intros Hne. induction o as [|[k0 v0] o IH]; simpl.
  - destruct (String.eqb k k') eqn:E; auto.
    apply String.eqb_eq in E. contradiction.
  - destruct (String.eqb k0 k) eqn:E; simpl.
    + apply String.eqb_eq in E. subst k0.
      destruct (String.eqb k k') eqn:E'; auto.
      apply String.eqb_eq in E'. contradiction.
    + now rewrite IH.
Qed.

Lemma get_set_same {V} (o : t V) k v : k <> "__proto__" -> get (set o k v) k = Some v.
Proof.
  intros Hk. unfold set. apply String.eqb_neq in Hk. rewrite Hk.
  apply get_assign_same.
Qed.

Lemma get_set_other {V} (o : t V) k k' v : k <> k' -> get (set o k v) k' = get o k'.
Proof.
  intros Hne. unfold set. destruct (String.eqb k "__proto__").
  - destruct (get o k); [now apply get_assign_other | reflexivity].
  - now apply get_assign_other.
Qed.

(** Nothing is ever stored under [__proto__] in an object that has no such
    property of its own. *)
Lemma get_set_proto {V} (o : t V) k v :
  get o "__proto__" = None -> get (set o k v) "__proto__" = None.
Proof.
  intros Hnone. destruct (String.eqb k "__proto__") eqn:E.
  - apply String.eqb_eq in E. subst k. unfold set. cbn [String.eqb Ascii.eqb Bool.eqb].
    now rewrite Hnone.
  - apply String.eqb_neq in E. now rewrite get_set_other.
Qed.

Lemma assign_fresh {V} (o : t V) k v : ~ In k (keys o) -> assign o k v = o ++ [(k, v)].
Proof.
  induction o as [|[k' v'] o IH]; simpl; intros Hn; auto.
  destruct (String.eqb k' k) eqn:E.
  - apply String.eqb_eq in E. tauto.
  - rewrite IH; tauto.
Qed.

Lemma get_In {V} (o : t V) k v : get o k = Some v -> In (k, v) o.
Proof.
  induction o as [|[k' v'] o IH]; simpl; [discriminate|].
  destruct (String.eqb k' k) eqn:E; intros H.
  - apply String.eqb_eq in E. inversion H. subst. now left.
  - right. auto.
Qed.

Lemma get_None {V} (o : t V) k : ~ In k (keys o) -> get o k = None.
Proof.
  intros Hn. destruct (get o k) as [v|] eqn:E; [|reflexivity].
  exfalso. apply Hn. apply get_In in E. unfold keys.
  change k with (fst (k, v)). now apply in_map.
Qed.

Lemma In_get {V} (o : t V) k v : wf o -> In (k, v) o -> get o k = Some v.
Proof.
  unfold wf. induction o as [|[k' v'] o IH]; simpl; [tauto|].
  intros Hnd [Heq | Hin].
  - inversion Heq. subst. now rewrite String.eqb_refl.
  - inversion Hnd as [|? ? Hnotin Hnd']. subst.
    destruct (String.eqb k' k) eqn:E.
    + apply String.eqb_eq in E. subst k'.
      exfalso. apply Hnotin. unfold keys.
      change k with (fst (k, v)). now apply in_map.
    + auto.
Qed.

(** Copying a well-formed object property by property, with [f] applied
    to the values, keeps the properties in place, but for [__proto__]. *)
Lemma forOwn_set_map {V W} (f : V -> W) (o : t V) (acc : t W) :
  NoDup (keys acc ++ keys o) ->
  ~ In "__proto__" (keys acc) ->
  forOwn o (fun r v k => set r k (f v)) acc
  = acc ++ map (fun kv => (fst kv, f (snd kv))) (storable o).
Proof.
  unfold forOwn. revert acc.
  induction o as [|[k v] o IH]; intros acc Hnd Hproto; simpl.
  - now rewrite app_nil_r.
  - assert (Hfresh : ~ In k (keys acc)).
    { apply NoDup_remove_2 in Hnd. intros Hin. apply Hnd.
      apply in_or_app. now left. }
    assert (Hrest : NoDup (keys acc ++ keys o)) by now apply NoDup_remove_1 in Hnd.
    unfold set. destruct (String.eqb k "__proto__") eqn:E; cbn [negb].
    + apply String.eqb_eq in E. subst k. rewrite (get_None acc _ Hproto).
      now apply IH.
    + rewrite assign_fresh by exact Hfresh. rewrite IH.
      * cbn [map fst snd]. now rewrite <- app_assoc.
      * unfold keys in *. rewrite map_app. simpl. rewrite <- app_assoc. exact Hnd.
      * unfold keys. rewrite map_app. simpl. intros Hin. apply in_app_or in Hin.
        destruct Hin as [Hin | [Heq | []]]; [now apply Hproto|].
        subst k. discriminate.
Qed.


Lemma keys_map_values {V W} (f : V -> W) (o : t V) :
  keys (map (fun kv => (fst kv, f (snd kv))) o) = keys o.
Proof. unfold keys. rewrite map_map. reflexivity. Qed.



Lemma storable_In {V} (o : t V) kv : In kv (storable o) -> In kv o.
Proof. unfold storable. intros H. now apply filter_In in H. Qed.

Lemma storable_wf {V} (o : t V) : wf o -> wf (storable o).
Proof.
  unfold wf, keys, storable. induction o as [|[k v] o IH]; simpl; intros Hnd; [constructor|].
  inversion Hnd as [|? ? Hnotin Hnd']. subst.
  destruct (negb (String.eqb k "__proto__")); simpl; [|now apply IH].
  constructor; [|now apply IH].
  intros Hin. apply Hnotin. apply in_map_iff in Hin. destruct Hin as [x [Hx Hin]].
  apply filter_In in Hin. apply in_map_iff. exists x. tauto.
Qed.

(** [_.invert] leaves alone the values that the object does not hold. *)
Lemma invert_from_other (o acc : t string) v :
  (forall k, ~ In (k, v) o) ->
  get (forOwn o (fun result value key => set result value key) acc) v = get acc v.
Proof.
  unfold forOwn. revert acc.
  induction o as [|[k w] o IH]; intros acc Hno; simpl; auto.
  rewrite IH.
  - apply get_set_other. intros ->. apply (Hno k). now left.
  - intros k' Hin. apply (Hno k'). now right.
Qed.

(** It never stores anything under [__proto__]. *)
Lemma invert_from_proto (o acc : t string) :
  get acc "__proto__" = None ->
  get (forOwn o (fun result value key => set result value key) acc) "__proto__" = None.
Proof.
  unfold forOwn. revert acc.
  induction o as [|[k w] o IH]; intros acc Hnone; simpl; auto.
  apply IH. now apply get_set_proto.
Qed.

(** A value held under one key only is inverted to that key. *)
Lemma invert_from_unique (o acc : t string) c v :
  v <> "__proto__" ->
  In (c, v) o ->
  (forall c', In (c', v) o -> c' = c) ->
  get (forOwn o (fun result value key => set result value key) acc) v = Some c.
Proof.
  intros Hv. revert acc.
  induction o as [|[k w] o IH]; intros acc Hin Huniq; [contradiction|].
  assert (Hdec : forall x y : string * string, {x = y} + {x <> y})
    by (decide equality; apply string_dec).
  destruct (in_dec Hdec (c, v) o) as [Hin' | Hnot].
  - apply IH; auto. intros c' H'. apply Huniq. now right.
  - destruct Hin as [Heq | Hin]; [|contradiction].
    inversion Heq. subst k w. unfold forOwn. simpl.
    change (get (forOwn o (fun result value key => set result value key) (set acc v c)) v = Some c).
    rewrite invert_from_other.
    + now apply get_set_same.
    + intros k Hk. assert (k = c) by (apply Huniq; now right). subst k. contradiction.
Qed.

(** A name that begins with [#] is no member of [Object.prototype]: its
    lookup is that of the own property. *)
Lemma lookup_hash {V} (o : t V) n :
  lookup o ("#" +:+ n) = match get o ("#" +:+ n) with Some v => own v | None => undefined end.
Proof. reflexivity. Qed.

Lemma lookup_not_inherited {V} (o : t V) k :
  inherited k = false ->
  lookup o k = match get o k with Some v => own v | None => undefined end.
Proof. intros H. unfold lookup. now rewrite H. Qed.
End JsObjectFacts.



(** What the constructor stores for a raw configuration value: the channel
    name without its password, in lower case; a Discord channel called
    [__proto__] is not stored. *)
Lemma constructor_channelMapping validate client options bot mapping :
  constructor validate client options = Ok bot ->
  Options.channelMapping options = Some mapping ->
  JsObject.wf mapping ->
  channelMapping bot
  = map (fun kv => (fst kv, toLowerCase (split_space_0 (snd kv))))
      (JsObject.storable mapping)
  /\ invertedMapping bot = JsObject.invert (channelMapping bot).
Proof.
  unfold constructor. intros Hc Hm Hwf.
  destruct (missing_field options); [discriminate|].
  rewrite Hm in Hc. simpl in Hc.
  destruct (validate mapping); [|discriminate].
  inversion Hc; subst bot; clear Hc. simpl. split; [|reflexivity].
  apply (JsObjectFacts.forOwn_set_map (fun v => toLowerCase (split_space_0 v)) mapping []).
  - exact Hwf.
  - intros [].
Qed.

Lemma constructor_channelMapping_wf validate client options bot mapping :
  constructor validate client options = Ok bot ->
  Options.channelMapping options = Some mapping ->
  JsObject.wf mapping ->
  JsObject.wf (channelMapping bot).
Proof.
  intros Hc Hm Hwf.
  destruct (constructor_channelMapping _ _ _ _ _ Hc Hm Hwf) as [Hfwd _].
  unfold JsObject.wf. rewrite Hfwd.
  rewrite (JsObjectFacts.keys_map_values (fun raw => toLowerCase (split_space_0 raw))).
  now apply JsObjectFacts.storable_wf.
Qed.




(** ** Line folding *)

Lemma chars_append a b : chars (a +:+ b) = chars a ++ chars b.
Proof. induction a as [|c a IH]; simpl; [reflexivity | now rewrite IH]. Qed.

Lemma single_line_append a b : single_line (a +:+ b) = single_line a && single_line b.
Proof. unfold single_line. now rewrite chars_append, forallb_app. Qed.

Lemma line_break_at_none c s : line_break_at (String c s) = None -> is_line_break c = false.
Proof.
  unfold is_line_break. simpl.
  destruct (Ascii.eqb c LF); [discriminate|].
  destruct (Ascii.eqb c CR); [|reflexivity].
  destruct s as [|c' s]; [discriminate|]. destruct (Ascii.eqb c' LF); discriminate.
Qed.

Lemma fold_lines_from_single_line s : forall skip,
  single_line
    (replace_global_from (fun t => option_map (fun n => (n, " ")) (line_break_at t)) skip s) = true.
Proof.
  induction s as [|c s IH]; intros skip; [reflexivity|].
  cbn [replace_global_from]. destruct skip as [|k]; [|apply IH].
  destruct (line_break_at (String c s)) as [n|] eqn:E; cbn [option_map].
  - rewrite single_line_append, IH. reflexivity.
  - apply line_break_at_none in E. unfold single_line in *. cbn [chars forallb].
    rewrite E. apply IH.
Qed.

Lemma replace_global_fn_single_line matcher callback s :
  (forall capture r, callback capture = Ok r -> single_line r = true) ->
  forall skip out,
    single_line s = true ->
    replace_global_fn_from matcher callback skip s = Ok out ->
    single_line out = true.
Proof.
  intros Hcb. induction s as [|c s IH]; intros skip out Hs Hout.
  - inversion Hout. reflexivity.
  - assert (Hc : negb (is_line_break c) = true /\ single_line s = true).
    { unfold single_line in Hs. cbn [chars forallb] in Hs. now apply andb_true_iff in Hs. }
    destruct Hc as [Hc Hs']. cbn [replace_global_fn_from] in Hout.
    destruct skip as [|k]; [|now apply (IH k)].
    destruct (matcher (String c s)) as [[n capture]|].
    + destruct (callback capture) as [r|] eqn:Er; [|discriminate].
      destruct (replace_global_fn_from matcher callback (pred n) s) as [out'|] eqn:Eo;
        [|discriminate].
      inversion Hout. rewrite single_line_append.
      rewrite (Hcb _ _ Er), (IH _ _ Hs' Eo). reflexivity.
    + destruct (replace_global_fn_from matcher callback 0 s) as [out'|] eqn:Eo;
        [|discriminate].
      inversion Hout. unfold single_line. cbn [chars forallb].
      rewrite Hc. apply (IH _ _ Hs' Eo).
Qed.

Lemma replace_global_fn_returns matcher callback s :
  (forall capture, exists r, callback capture = Ok r) ->
  forall skip, exists out, replace_global_fn_from matcher callback skip s = Ok out.
Proof.
  intros Hcb. induction s as [|c s IH]; intros skip; [now exists ""|].
  cbn [replace_global_fn_from]. destruct skip as [|k]; [|apply IH].
  destruct (matcher (String c s)) as [[n capture]|].
  - destruct (Hcb capture) as [r ->]. destruct (IH (pred n)) as [out ->]. eauto.
  - destruct (IH 0) as [out ->]. eauto.
Qed.

Lemma sample_channel_names_single_line channelId ch :
  channels_get (discord Sample.bot) "id" channelId = Some ch -> single_line (name ch) = true.
Proof.
  intros H.
  change (Sample.find_by channel_id channelId [Sample.general; Sample.random] = Some ch) in H.
  unfold Sample.find_by in H. cbn [find] in H.
  destruct (String.eqb (channel_id Sample.general) channelId); [now injection H as <-|].
  destruct (String.eqb (channel_id Sample.random) channelId); [now injection H as <-|].
  discriminate.
Qed.

(** ** Nick colours *)

(** C8. For a display name with first character [c], the palette index is
    (char code of [c] + length of the name) mod N, N = 12 the size of the
    palette, and the colour is the entry of the palette at that index,
    which always exists; it is the colour [displayUsername] hands to the
    colour wrapper. The colour depends on the name only, through its first
    character and its length; two names with the same index get the same
    colour, also in the name shown on IRC, as do the distinct names [a]
    and [m]. *)
Theorem nick_color_assignment :
  List.length NICK_COLORS = 12
  /\ (forall c rest,
        let name := String c rest in
        let index := (nat_of_ascii c + String.length name) mod List.length NICK_COLORS in
        colorIndex name = Some index
        /\ index < List.length NICK_COLORS
        /\ nickColor name = nth_error NICK_COLORS index
        /\ (exists color, nickColor name = Some color /\ In color NICK_COLORS)
        /\ (forall wrap b,
              ircNickColor b = true ->
              displayUsername wrap b name = wrap (nth_error NICK_COLORS index) name))
  /\ (forall n1 n2,
        charCodeAt0 n1 = charCodeAt0 n2 -> String.length n1 = String.length n2 ->
        colorIndex n1 = colorIndex n2 /\ nickColor n1 = nickColor n2)
  /\ (forall n1 n2, colorIndex n1 = colorIndex n2 -> nickColor n1 = nickColor n2)
  /\ ("a" <> "m" /\ colorIndex "a" = Some 2 /\ colorIndex "m" = Some 2
      /\ nickColor "a" = Some "light_red" /\ nickColor "m" = Some "light_red"
      /\ nickColor "b" = Some "dark_red")
  /\ (forall wrap b n1 n2,
        ircNickColor b = true -> colorIndex n1 = colorIndex n2 ->
        exists color, displayUsername wrap b n1 = wrap color n1
                      /\ displayUsername wrap b n2 = wrap color n2).
Proof.
  split; [reflexivity|]. split.
  { intros c rest name index.
    assert (Hi : index < List.length NICK_COLORS) by (apply Nat.mod_upper_bound; discriminate).
    assert (Hcolor : nickColor name = nth_error NICK_COLORS index) by reflexivity.
    split; [reflexivity|]. split; [exact Hi|]. split; [exact Hcolor|]. split.
    - rewrite Hcolor. destruct (nth_error NICK_COLORS index) as [color|] eqn:E.
      + exists color. split; [reflexivity|]. eapply nth_error_In; eauto.
      + apply nth_error_None in E. lia.
    - intros wrap b Hon. unfold displayUsername. now rewrite Hon, Hcolor. }
  split.
  { intros n1 n2 Hcode Hlen.
    assert (H : colorIndex n1 = colorIndex n2) by (unfold colorIndex; now rewrite Hcode, Hlen).
    split; [exact H|]. unfold nickColor. now rewrite H. }
  split; [intros n1 n2 H; unfold nickColor; now rewrite H|].
  split; [repeat split; discriminate|].
  intros wrap b n1 n2 Hcol Hidx. exists (nickColor n1). unfold displayUsername.
  rewrite Hcol. split; [reflexivity|]. unfold nickColor. now rewrite Hidx.
Qed.

Lemma nick_color_assignment_witness :
  nickColor "a" = nickColor "m"
  /\ displayUsername Sample.wrap Sample.bot "alice" = Sample.wrap (Some "magenta") "alice"
  /\ exists color, displayUsername Sample.wrap Sample.bot "a" = Sample.wrap color "a"
                   /\ displayUsername Sample.wrap Sample.bot "m" = Sample.wrap color "m".
Proof.
  destruct nick_color_assignment as (_ & Hname & _ & Hcoll & _ & Hshown).
  split; [|split].
  - apply Hcoll. reflexivity.
  - destruct (Hname "a"%char "lice") as (_ & _ & _ & _ & Hwrap).
    apply (Hwrap Sample.wrap Sample.bot). reflexivity.
  - apply Hshown; reflexivity.
Defined.

(** ** Traces *)

Lemma trace_bind {A B} (m : M A) (f : A -> M B) :
  trace (bind m f)
  = trace m ++ match outcome m with Ok a => trace (f a) | Throw _ => [] end.
Proof.
  destruct m as [t [a|e]]; simpl.
  - destruct (f a). reflexivity.
  - now rewrite app_nil_r.
Qed.

Lemma outcome_bind {A B} (m : M A) (f : A -> M B) :
  outcome (bind m f)
  = match outcome m with Ok a => outcome (f a) | Throw e => Throw e end.
Proof. destruct m as [t [a|e]]; simpl; [destruct (f a)|]; reflexivity. Qed.

Lemma sends_bind {A B} (m : M A) (f : A -> M B) :
  sends (bind m f)
  = sends m ++ match outcome m with Ok a => sends (f a) | Throw _ => [] end.
Proof.
  unfold sends. rewrite trace_bind, filter_app. destruct (outcome m); reflexivity.
Qed.

Lemma logs_bind {A B} (m : M A) (f : A -> M B) :
  logs (bind m f)
  = logs m ++ match outcome m with Ok a => logs (f a) | Throw _ => [] end.
Proof.
  unfold logs. rewrite trace_bind, filter_app. destruct (outcome m); reflexivity.
Qed.

Lemma append_empty_r s : s +:+ "" = s.
Proof. induction s as [|c s IH]; simpl; [reflexivity | now rewrite IH]. Qed.

(** What [sendToDiscord] sends: one message to the Discord channel the IRC
    channel is bridged to, nothing when there is none; it never throws. *)
Lemma sendToDiscord_sends b author_ channel_ text :
  sends (sendToDiscord b author_ channel_ text)
  = match bridged_to b channel_ with
    | Some discordChannel =>
        [DiscordSendMessage discordChannel
           ("**<" +:+ author_ +:+ ">** " +:+ withMentions b text)]
    | None => []
    end.
Proof.
  unfold sendToDiscord, bridged_to, JsObject.lookup.
  destruct (JsObject.get (invertedMapping b) (toLowerCase channel_)) as [[|c dn]|]; cbn [truthy].
  - reflexivity.
  - destruct (channels_get (discord b) "name" (slice1 (String c dn))); reflexivity.
  - destruct (JsObject.inherited (toLowerCase channel_)); reflexivity.
Qed.

(** It returns unless the lookup finds an inherited member; then it throws
    before it has done anything. *)
Lemma sendToDiscord_outcome b author_ channel_ text :
  finds_member b channel_ = false ->
  outcome (sendToDiscord b author_ channel_ text) = Ok tt.
Proof.
  unfold sendToDiscord, finds_member.
  destruct (JsObject.lookup (invertedMapping b) (toLowerCase channel_)) as [|[|c dn]|k];
    try reflexivity; try discriminate.
  intros _. destruct (channels_get (discord b) "name" (slice1 (String c dn))); reflexivity.
Qed.

Lemma sendToDiscord_throws b author_ channel_ text :
  finds_member b channel_ = true ->
  sendToDiscord b author_ channel_ text
  = ([], Throw (TypeError "discordChannelName.slice is not a function")).
Proof.
  unfold sendToDiscord, finds_member.
  destruct (JsObject.lookup (invertedMapping b) (toLowerCase channel_)) as [|[|c dn]|k];
    try reflexivity; discriminate.
Qed.

Lemma finds_member_spec b channel_ :
  finds_member b channel_ = true
  <-> JsObject.get (invertedMapping b) (toLowerCase channel_) = None
      /\ JsObject.inherited (toLowerCase channel_) = true.
Proof.
  unfold finds_member, JsObject.lookup.
  destruct (JsObject.get (invertedMapping b) (toLowerCase channel_)).
  - split; [discriminate | intros [H _]; discriminate].
  - destruct (JsObject.inherited (toLowerCase channel_)); split; auto; try discriminate.
    intros [_ H]. discriminate.
Qed.

Lemma forEach_sends {A} (l : list A) (f : A -> M unit) :
  (forall x, outcome (f x) = Ok tt) ->
  sends (forEach l f) = flat_map (fun x => sends (f x)) l
  /\ outcome (forEach l f) = Ok tt.
Proof.
  intros Hok. induction l as [|x l [IHs IHo]]; [split; reflexivity|].
  cbn [forEach flat_map]. rewrite sends_bind, outcome_bind, Hok, IHs. now split.
Qed.

(** ** Self-messages *)

(** C1, as the code has it. A Discord message whose author is the bridge's
    own Discord user is dropped by [sendToIRC] before anything is sent or
    logged. [sendToDiscord] has no such filter: whoever the author is, the
    bridge's own nickname included, a message to a bridged IRC channel is
    sent once to its Discord channel. *)
Theorem self_message_filter :
  (forall wrap b message,
      id (author message) = id (user (discord b)) ->
      sendToIRC wrap b message = ret tt /\ sends (sendToIRC wrap b message) = [])
  /\ (forall b author_ channel_ text discordChannel,
      bridged_to b channel_ = Some discordChannel ->
      sends (sendToDiscord b author_ channel_ text)
      = [DiscordSendMessage discordChannel
           ("**<" +:+ author_ +:+ ">** " +:+ withMentions b text)]).
Proof.
  split.
  - intros wrap b message Hself.
    assert (H : sendToIRC wrap b message = ret tt).
    { unfold sendToIRC. rewrite Hself, String.eqb_refl. reflexivity. }
    rewrite H. split; reflexivity.
  - intros b author_ channel_ text discordChannel Hb.
    rewrite sendToDiscord_sends, Hb. reflexivity.
Qed.

Lemma self_message_filter_witness :
  sends (sendToIRC Sample.wrap Sample.bot
           (Sample.message Sample.bridge_user Sample.general "hello")) = []
  /\ sends (sendToDiscord Sample.bot "alice" "#Relay" "hello")
     = [DiscordSendMessage Sample.general "**<alice>** hello"].
Proof.
  destruct self_message_filter as [Hirc Hdiscord].
  split.
  - apply Hirc. reflexivity.
  - apply (Hdiscord Sample.bot "alice" "#Relay" "hello" Sample.general). reflexivity.
Defined.

(** Against C1 as stated: an IRC message whose author is the bridge's own
    nickname, in a bridged channel, is relayed to Discord. *)
Lemma self_message_relayed_to_discord :
  nickname Sample.bot = "bridge"
  /\ sends (on_message Sample.bot "bridge" "#relay" "hello")
     = [DiscordSendMessage Sample.general "**<bridge>** hello"]
  /\ sends (on_message Sample.bot (nickname Sample.bot) "#relay" "hello") <> [].
Proof. repeat split. discriminate. Qed.

(** ** Unmapped channels *)

(** C2, as the code has it. A Discord message that is not the bridge's own,
    in a channel without an entry in the forward table, sends nothing and
    logs exactly one entry; an IRC message to a channel whose lower-cased
    name has no entry in the inverse table sends nothing and logs nothing:
    nothing at all happens, unless the name is that of a member inherited
    from [Object.prototype], on which the relay throws. *)
Theorem unmapped_channel_dropped :
  (forall wrap b message,
      id (author message) <> id (user (discord b)) ->
      JsObject.get (channelMapping b) ("#" +:+ name (channel message)) = None ->
      sends (sendToIRC wrap b message) = []
      /\ logs (sendToIRC wrap b message) = [Log debug "Channel Mapping"]
      /\ outcome (sendToIRC wrap b message) = Ok tt)
  /\ (forall b author_ channel_ text,
      JsObject.get (invertedMapping b) (toLowerCase channel_) = None ->
      sends (sendToDiscord b author_ channel_ text) = []
      /\ logs (sendToDiscord b author_ channel_ text) = []
      /\ (JsObject.inherited (toLowerCase channel_) = false ->
          sendToDiscord b author_ channel_ text = ret tt)
      /\ (JsObject.inherited (toLowerCase channel_) = true ->
          sendToDiscord b author_ channel_ text
          = ([], Throw (TypeError "discordChannelName.slice is not a function")))).
Proof.
  split.
  - intros wrap b message Hother Hunmapped.
    assert (H : sendToIRC wrap b message = ([Log debug "Channel Mapping"], Ok tt)).
    { unfold sendToIRC. apply String.eqb_neq in Hother. rewrite Hother, Hunmapped.
      reflexivity. }
    rewrite H. repeat split.
  - intros b author_ channel_ text Hunmapped.
    unfold sendToDiscord, JsObject.lookup. rewrite Hunmapped.
    destruct (JsObject.inherited (toLowerCase channel_)); repeat split; discriminate.
Qed.

Lemma unmapped_channel_dropped_witness :
  logs (sendToIRC Sample.wrap Sample.bot
          (Sample.message Sample.alice {| channel_id := "102"; name := "offtopic" |} "hello"))
  = [Log debug "Channel Mapping"]
  /\ sendToDiscord Sample.bot "alice" "#nowhere" "hello" = ret tt.
Proof.
  destruct unmapped_channel_dropped as [Hirc Hdiscord].
  split.
  - apply Hirc.
    + discriminate.
    + reflexivity.
  - apply (Hdiscord Sample.bot "alice" "#nowhere" "hello"); reflexivity.
Defined.

(** Against C2 as stated: an IRC message to an unmapped channel leaves no
    log entry at all, and neither does a Discord message of the bridge's
    own user to an unmapped channel. *)
Lemma unmapped_irc_channel_not_logged :
  (JsObject.get (invertedMapping Sample.bot) (toLowerCase "#nowhere") = None
   /\ sends (on_message Sample.bot "alice" "#nowhere" "hello") = []
   /\ List.length (logs (on_message Sample.bot "alice" "#nowhere" "hello")) = 0
   /\ List.length (logs (on_message Sample.bot "alice" "#nowhere" "hello")) <> 1)
  /\ (JsObject.get (channelMapping Sample.bot) "#offtopic" = None
      /\ List.length
           (logs (sendToIRC Sample.wrap Sample.bot
                    (Sample.message Sample.bridge_user
                       {| channel_id := "102"; name := "offtopic" |} "hello"))) <> 1).
Proof. repeat split; discriminate. Qed.

(** ** Empty bodies and attachments *)

Lemma attachments_sends ircChannel shown (atts : list Attachment) :
  sends
    (forEach atts (fun a =>
       let urlMessage := "<" +:+ shown +:+ "> " +:+ url a in
       logger debug "Sending attachment URL to IRC" ;;
       emit (IrcSay ircChannel urlMessage)))
  = map (fun a => IrcSay ircChannel ("<" +:+ shown +:+ "> " +:+ url a)) atts.
Proof.
  match goal with |- sends (forEach _ ?f) = _ =>
    destruct (forEach_sends atts f (fun _ => eq_refl)) as [-> _]
  end.
  induction atts as [|a atts IH]; [reflexivity|].
  cbn [flat_map map]. rewrite <- IH. reflexivity.
Qed.

(** C9. A message whose transformed body is empty is no command. Without
    attachments, [sendToIRC] sends nothing for it, mapped channel or not;
    with attachments, in a mapped channel and from another user than the
    bridge, it sends one line per attachment, in order: the author prefix
    and the attachment's URL. *)
Theorem empty_body_relays_attachments_only :
  forall wrap b message,
    parseText b message = Ok "" ->
    isCommandMessage b "" = false
    /\ (attachments message = None \/ attachments message = Some [] ->
        sends (sendToIRC wrap b message) = [])
    /\ (forall ircChannel atts,
        id (author message) <> id (user (discord b)) ->
        truthy (JsObject.get (channelMapping b) ("#" +:+ name (channel message)))
        = Some ircChannel ->
        attachments message = Some atts ->
        sends (sendToIRC wrap b message)
        = map (fun a => IrcSay ircChannel
                 ("<" +:+ displayUsername wrap b (username (author message)) +:+ "> " +:+ url a))
              atts).
Proof.
  intros wrap b message Hbody.
  split; [reflexivity|]. split.
  - intros Hnone. unfold sendToIRC.
    destruct (String.eqb (id (author message)) (id (user (discord b)))); [reflexivity|].
    destruct (truthy (JsObject.get (channelMapping b) ("#" +:+ name (channel message))));
      [|reflexivity].
    rewrite Hbody. destruct Hnone as [-> | ->]; reflexivity.
  - intros ircChannel atts Hother Hmapped Hatts. unfold sendToIRC.
    apply String.eqb_neq in Hother. rewrite Hother, Hmapped, Hbody, Hatts.
    destruct atts as [|a atts]; [reflexivity|].
    rewrite sends_bind. cbn [outcome logger emit snd].
    rewrite sends_bind. cbn [outcome lift snd].
    change (isCommandMessage b "") with false. cbn iota.
    rewrite sends_bind. cbn [String.eqb outcome ret snd].
    rewrite attachments_sends. reflexivity.
Qed.

Lemma empty_body_relays_attachments_only_witness :
  sends (sendToIRC Sample.wrap Sample.bot (Sample.message Sample.alice Sample.general "")) = []
  /\ sends (sendToIRC Sample.wrap Sample.bot Sample.pictures)
     = [IrcSay "#relay" "<[magenta]alice> http://x/1.png";
        IrcSay "#relay" "<[magenta]alice> http://x/2.png"].
Proof.
  split.
  - apply (empty_body_relays_attachments_only Sample.wrap Sample.bot
             (Sample.message Sample.alice Sample.general "") eq_refl).
    left. reflexivity.
  - refine (proj2 (proj2 (empty_body_relays_attachments_only Sample.wrap Sample.bot
                            Sample.pictures eq_refl))
              "#relay" [ {| url := "http://x/1.png" |}; {| url := "http://x/2.png" |} ]
              _ eq_refl eq_refl).
    discriminate.
Defined.

(** ** Invitations *)




(** ** Quits and kills *)

Lemma forEach_sends_In {A} (l : list A) (f : A -> M unit) :
  (forall x, In x l -> outcome (f x) = Ok tt) ->
  sends (forEach l f) = flat_map (fun x => sends (f x)) l
  /\ outcome (forEach l f) = Ok tt.
Proof.
  induction l as [|x l IH]; intros Hok; [split; reflexivity|].
  destruct IH as [IHs IHo]; [intros y Hy; apply Hok; now right|].
  cbn [forEach flat_map]. rewrite sends_bind, outcome_bind, (Hok x (or_introl eq_refl)), IHs.
  now split.
Qed.








(** ** Mentions and channel references *)

(** C3, on the code. With one user in the mention set and two tokens for
    that user in the body, only the first token of each syntax is replaced:
    the second plain token and the second nickname token are relayed as
    they came. *)
Theorem parseText_replaces_first_mention_only :
  forall b,
    parseText b {| author := Sample.alice; channel := Sample.general;
                   content := "<@3> and <@3>";
                   mentions := [Sample.bob]; attachments := None |}
    = Ok "@bob and <@3>"
    /\ parseText b {| author := Sample.alice; channel := Sample.general;
                      content := "<@!3> and <@!3>";
                      mentions := [Sample.bob]; attachments := None |}
       = Ok "@bob and <@!3>"
    /\ parseText b {| author := Sample.alice; channel := Sample.general;
                      content := "<@3> or <@!3>";
                      mentions := [Sample.bob]; attachments := None |}
       = Ok "@bob or @bob".
Proof. intros b. repeat split. Qed.

(** C4, on the code. A channel reference whose id the Discord client does
    not know makes [parseText] throw a [TypeError], and [sendToIRC] with
    it: nothing is sent to IRC. *)
Theorem parseText_throws_on_unknown_channel :
  channels_get (discord Sample.bot) "id" "7" = None
  /\ parseText Sample.bot (Sample.message Sample.alice Sample.general "see <#7>")
     = Throw (TypeError "Cannot read property 'name' of null")
  /\ sendToIRC Sample.wrap Sample.bot (Sample.message Sample.alice Sample.general "see <#7>")
     = ([Log debug "Channel Mapping"], Throw (TypeError "Cannot read property 'name' of null"))
  /\ parseText Sample.bot (Sample.message Sample.alice Sample.general "see <#101>")
     = Ok "see #random".
Proof. repeat split. Qed.

(** * Further properties of the code *)

(** ** Characters and text *)

Lemma lower_char_idempotent c : lower_char (lower_char c) = lower_char c.
Proof. destruct c as [[] [] [] [] [] [] [] []]; reflexivity. Qed.

Lemma toLowerCase_idempotent s : toLowerCase (toLowerCase s) = toLowerCase s.
Proof.
  induction s as [|c s IH]; simpl; [reflexivity|].
  now rewrite lower_char_idempotent, IH.
Qed.

Lemma single_line_cons c s :
  single_line (String c s) = negb (is_line_break c) && single_line s.
Proof. reflexivity. Qed.

Lemma line_break_at_single_line c s :
  is_line_break c = false -> line_break_at (String c s) = None.
Proof.
  unfold is_line_break. intros H. apply orb_false_iff in H. destruct H as [H1 H2].
  simpl. now rewrite H1, H2.
Qed.

Lemma fold_lines_single_line s : single_line s = true -> fold_lines s = s.
Proof.
  unfold fold_lines, replace_global.
  induction s as [|c s IH]; intros Hs; [reflexivity|].
  rewrite single_line_cons in Hs. apply andb_true_iff in Hs. destruct Hs as [Hc Hs].
  apply negb_true_iff in Hc.
  cbn [replace_global_from]. rewrite (line_break_at_single_line c s Hc).
  cbn [option_map]. now rewrite IH.
Qed.

Lemma fold_lines_from_length s : forall skip,
  String.length
    (replace_global_from (fun t => option_map (fun n => (n, " ")) (line_break_at t)) skip s)
  <= String.length s.
Proof.
  induction s as [|c s IH]; intros skip; [apply le_n|].
  cbn [replace_global_from]. destruct skip as [|k].
  - destruct (line_break_at (String c s)) as [n|]; cbn [option_map];
      simpl; apply le_n_S, IH.
  - simpl. apply Nat.le_le_succ_r, IH.
Qed.

(** Line folding changes nothing in a text without line breaks, folding
    twice is folding once, and folding never makes a text longer. *)
Theorem fold_lines_fixpoint :
  (forall s, single_line s = true -> fold_lines s = s)
  /\ (forall s, fold_lines (fold_lines s) = fold_lines s)
  /\ (forall s, String.length (fold_lines s) <= String.length s).
Proof.
  split; [exact fold_lines_single_line|]. split.
  - intros s. apply fold_lines_single_line, fold_lines_from_single_line.
  - intros s. apply fold_lines_from_length.
Qed.

Lemma fold_lines_fixpoint_witness : fold_lines "no break here" = "no break here".
Proof.
  destruct fold_lines_fixpoint as [Hid _]. apply Hid. reflexivity.
Defined.

(** ** The mapping tables, continued *)

Lemma invert_from_last_key (o acc : JsObject.t string) v :
  v <> "__proto__" ->
  JsObject.get
    (JsObject.forOwn o (fun result value key => JsObject.set result value key) acc) v
  = match last_key_of o v with
    | Some k => Some k
    | None => JsObject.get acc v
    end.
Proof.
  intros Hv. unfold JsObject.forOwn. revert acc.
  induction o as [|[k w] o IH]; intros acc; [reflexivity|].
  cbn [fold_left last_key_of fst snd]. rewrite IH.
  destruct (last_key_of o v); [reflexivity|].
  destruct (String.eqb w v) eqn:E.
  - apply String.eqb_eq in E. subst w. now apply JsObjectFacts.get_set_same.
  - apply String.eqb_neq in E. now apply JsObjectFacts.get_set_other.
Qed.

Lemma last_key_of_app o1 o2 v :
  last_key_of (o1 ++ o2) v
  = match last_key_of o2 v with Some k => Some k | None => last_key_of o1 v end.
Proof.
  induction o1 as [|[k w] o1 IH]; simpl.
  - destruct (last_key_of o2 v); reflexivity.
  - rewrite IH. destruct (last_key_of o2 v); reflexivity.
Qed.

Lemma last_key_of_none o v : last_key_of o v = None <-> forall k, ~ In (k, v) o.
Proof.
  induction o as [|[k w] o IH]; simpl.
  - split; [intros _ k [] | reflexivity].
  - destruct (last_key_of o v) as [k'|].
    + split; [discriminate|]. intros H. exfalso.
      assert (Hsome : Some k' <> None) by discriminate.
      apply Hsome, IH. intros k0 Hin. apply (H k0). now right.
    + destruct (String.eqb w v) eqn:E.
      * apply String.eqb_eq in E. subst w. split; [discriminate|].
        intros H. exfalso. apply (H k). now left.
      * apply String.eqb_neq in E. split; [|reflexivity].
        intros _ k0 [Heq | Hin].
        -- inversion Heq. contradiction.
        -- revert Hin. now apply IH.
Qed.

Lemma last_key_of_In o v k : last_key_of o v = Some k -> In (k, v) o.
Proof.
  induction o as [|[k0 w] o IH]; simpl; [discriminate|].
  destruct (last_key_of o v) as [k'|].
  - intros H. right. apply IH. exact H.
  - destruct (String.eqb w v) eqn:E; [|discriminate].
    apply String.eqb_eq in E. subst w. intros H. injection H as <-. now left.
Qed.

Lemma constructor_fields validate client options bot :
  constructor validate client options = Ok bot ->
  discord bot = client
  /\ commandCharacters bot = or_default (Options.commandCharacters options) []
  /\ ircNickColor bot = or_default (Options.ircNickColor options) true
  /\ relayChannelJoins bot = or_default (Options.relayChannelJoins options) false
  /\ relayChannelParts bot = or_default (Options.relayChannelParts options) false
  /\ relayChannelQuits bot = or_default (Options.relayChannelQuits options) false
  /\ relayChannelNames bot = or_default (Options.relayChannelNames options) false
  /\ autoSendCommands bot = or_default (Options.autoSendCommands options) []
  /\ channels bot = JsObject.values (or_default (Options.channelMapping options) []).
Proof.
  unfold constructor. intros Hc.
  destruct (missing_field options); [discriminate|].
  destruct (validate _); [|discriminate].
  injection Hc as <-. repeat split.
Qed.

Lemma constructor_inverse_last_key validate client options bot :
  constructor validate client options = Ok bot ->
  (forall v, v <> "__proto__" ->
             JsObject.get (invertedMapping bot) v = last_key_of (channelMapping bot) v)
  /\ JsObject.get (invertedMapping bot) "__proto__" = None.
Proof.
  unfold constructor. intros Hc.
  destruct (missing_field options); [discriminate|].
  destruct (validate _); [|discriminate].
  injection Hc as <-. cbn [invertedMapping channelMapping]. unfold JsObject.invert. split.
  - intros v Hv. rewrite invert_from_last_key by exact Hv.
    now destruct (last_key_of _ v).
  - now apply JsObjectFacts.invert_from_proto.
Qed.

(** When several Discord channels of the configuration are mapped to one
    IRC channel, the inverse table of the bridge holds the last of them, in
    the order of the forward table; it has an entry exactly for the IRC
    channels of the forward table, but for [__proto__], under which it
    never stores anything. *)
Theorem invert_last_key_wins :
  forall validate client options bot,
    constructor validate client options = Ok bot ->
    JsObject.get (invertedMapping bot) "__proto__" = None
    /\ forall ircChannel,
         ircChannel <> "__proto__" ->
         JsObject.get (invertedMapping bot) ircChannel
         = last_key_of (channelMapping bot) ircChannel
         /\ (forall o1 c o2,
               channelMapping bot = o1 ++ (c, ircChannel) :: o2 ->
               (forall k, ~ In (k, ircChannel) o2) ->
               JsObject.get (invertedMapping bot) ircChannel = Some c)
         /\ (JsObject.get (invertedMapping bot) ircChannel = None
             <-> forall k, ~ In (k, ircChannel) (channelMapping bot)).
Proof.
  intros validate client options bot Hc.
  destruct (constructor_inverse_last_key _ _ _ _ Hc) as [Hlast Hproto].
  split; [exact Hproto|]. intros ircChannel Hne.
  rewrite (Hlast _ Hne). split; [reflexivity|]. split.
  - intros o1 c o2 -> Hno. rewrite last_key_of_app. cbn [last_key_of].
    apply last_key_of_none in Hno. rewrite Hno, String.eqb_refl. reflexivity.
  - apply last_key_of_none.
Qed.

Lemma invert_last_key_wins_witness :
  JsObject.get (invertedMapping Minimal.bot) "#relay" = Some "#lounge".
Proof.
  destruct (invert_last_key_wins Sample.validate Sample.client Minimal.options Minimal.bot
              eq_refl) as [_ H].
  destruct (H "#relay") as (_ & Hlast & _); [discriminate|].
  apply (Hlast [("#general", "#relay")] "#lounge" [] eq_refl).
  intros k [].
Defined.

Lemma constructor_inverse_sound :
  forall validate client options bot mapping,
    constructor validate client options = Ok bot ->
    Options.channelMapping options = Some mapping ->
    JsObject.wf mapping ->
    forall ircChannel discordChannel,
      JsObject.get (invertedMapping bot) ircChannel = Some discordChannel ->
      JsObject.get (channelMapping bot) discordChannel = Some ircChannel
      /\ toLowerCase ircChannel = ircChannel
      /\ In discordChannel (JsObject.keys mapping).
Proof.
  intros validate client options bot mapping Hc Hm Hwf ircChannel discordChannel Hinv.
  destruct (constructor_channelMapping _ _ _ _ _ Hc Hm Hwf) as [Hfwd _].
  pose proof (constructor_channelMapping_wf _ _ _ _ _ Hc Hm Hwf) as Hwf'.
  destruct (constructor_inverse_last_key _ _ _ _ Hc) as [Hlast Hproto].
  assert (Hne : ircChannel <> "__proto__") by (intros ->; congruence).
  rewrite (Hlast _ Hne) in Hinv. apply last_key_of_In in Hinv.
  split; [now apply JsObjectFacts.In_get|].
  rewrite Hfwd in Hinv. apply in_map_iff in Hinv. destruct Hinv as [[k raw] [Heq Hin]].
  injection Heq as -> <-. split.
  - apply toLowerCase_idempotent.
  - apply JsObjectFacts.storable_In in Hin. unfold JsObject.keys.
    change discordChannel with (fst (discordChannel, raw)). now apply in_map.
Qed.

(** In a bridge the constructor has built, the inverse table only holds
    pairs of the forward table: if it sends an IRC channel to a Discord
    channel, the forward table sends that Discord channel to this IRC
    channel, also when several Discord channels share the IRC channel; and
    its keys are in lower case. *)
Theorem inverse_entries_are_forward_entries :
  forall validate client options bot mapping,
    constructor validate client options = Ok bot ->
    Options.channelMapping options = Some mapping ->
    JsObject.wf mapping ->
    forall ircChannel discordChannel,
      JsObject.get (invertedMapping bot) ircChannel = Some discordChannel ->
      JsObject.get (channelMapping bot) discordChannel = Some ircChannel
      /\ toLowerCase ircChannel = ircChannel
      /\ In discordChannel (JsObject.keys mapping).
Proof. exact constructor_inverse_sound. Qed.

Lemma inverse_entries_are_forward_entries_witness :
  JsObject.get (channelMapping Minimal.bot) "#lounge" = Some "#relay".
Proof.
  assert (Hwf : JsObject.wf [("#general", "#Relay secret"); ("#lounge", "#relay")]).
  { unfold JsObject.wf. simpl. repeat constructor; simpl; intuition discriminate. }
  apply (inverse_entries_are_forward_entries Sample.validate Sample.client Minimal.options
           Minimal.bot _ eq_refl eq_refl Hwf "#relay" "#lounge").
  reflexivity.
Defined.

(** A Discord channel [#n] that alone is mapped to an IRC channel, one not
    called [__proto__], gets back what is said in that IRC channel: the
    relay to Discord looks up, by its name [n], the very channel whose
    messages [sendToIRC] relays there. *)
Theorem relay_round_trip :
  forall validate client options bot mapping n ircChannel,
    constructor validate client options = Ok bot ->
    Options.channelMapping options = Some mapping ->
    JsObject.wf mapping ->
    JsObject.get (channelMapping bot) ("#" +:+ n) = Some ircChannel ->
    ircChannel <> "__proto__" ->
    (forall c', JsObject.get (channelMapping bot) c' = Some ircChannel -> c' = "#" +:+ n) ->
    bridged_to bot ircChannel = channels_get client "name" n
    /\ finds_member bot ircChannel = false
    /\ forall author_ text,
         outcome (sendToDiscord bot author_ ircChannel text) = Ok tt
         /\ sends (sendToDiscord bot author_ ircChannel text)
            = match channels_get client "name" n with
              | Some discordChannel =>
                  [DiscordSendMessage discordChannel
                     ("**<" +:+ author_ +:+ ">** " +:+ withMentions bot text)]
              | None => []
              end.
Proof.
  intros validate client options bot mapping n ircChannel Hc Hm Hwf Hfwd Hproto Huniq.
  destruct (constructor_channelMapping _ _ _ _ _ Hc Hm Hwf) as [Hmap Hinv].
  destruct (constructor_fields _ _ _ _ Hc) as [Hclient _].
  pose proof (constructor_channelMapping_wf _ _ _ _ _ Hc Hm Hwf) as Hwf'.
  assert (Hback : JsObject.get (invertedMapping bot) ircChannel = Some ("#" +:+ n)).
  { rewrite Hinv. apply JsObjectFacts.invert_from_unique.
    - exact Hproto.
    - now apply JsObjectFacts.get_In.
    - intros c' Hin. apply Huniq. now apply JsObjectFacts.In_get. }
  assert (Hlow : toLowerCase ircChannel = ircChannel).
  { now destruct (constructor_inverse_sound _ _ _ _ _ Hc Hm Hwf _ _ Hback) as (_ & H & _). }
  assert (Hbridge : bridged_to bot ircChannel = channels_get client "name" n).
  { unfold bridged_to. rewrite Hlow, Hback, Hclient. reflexivity. }
  assert (Hplain : finds_member bot ircChannel = false).
  { unfold finds_member, JsObject.lookup. now rewrite Hlow, Hback. }
  split; [exact Hbridge|]. split; [exact Hplain|].
  intros author_ text. split; [now apply sendToDiscord_outcome|].
  rewrite sendToDiscord_sends, Hbridge. reflexivity.
Qed.

Lemma relay_round_trip_witness :
  bridged_to Sample.bot "#other" = Some Sample.random.
Proof.
  assert (Hwf : JsObject.wf Sample.mapping).
  { unfold JsObject.wf. simpl. repeat constructor; simpl; intuition discriminate. }
  refine (proj1 (relay_round_trip Sample.validate Sample.client Sample.options Sample.bot
                   Sample.mapping "random" "#other" eq_refl eq_refl Hwf eq_refl _ _)).
  - discriminate.
  - intros c'.
    change (channelMapping Sample.bot) with [("#general", "#relay"); ("#random", "#other")].
    cbn [JsObject.get].
    destruct (String.eqb "#general" c'); [discriminate|].
    destruct (String.eqb "#random" c') eqn:E; [|discriminate].
    apply String.eqb_eq in E. now symmetry.
Defined.

(** ** The relay to Discord *)

(** [sendToDiscord] sends at most one message and does nothing on IRC; it
    looks the channel up in lower case, so the spelling of the channel
    name does not matter; when the mapped Discord channel is not known to
    the client it sends nothing and logs once, at level info. It throws
    exactly when the lower-cased channel name is no own entry of the
    inverse table but the name of a member inherited from
    [Object.prototype], which is not a string to slice: then a [TypeError]
    is thrown before anything is sent or logged. *)
Theorem sendToDiscord_behaviour :
  forall b author_ channel_ text,
    (outcome (sendToDiscord b author_ channel_ text) = Ok tt
     <-> finds_member b channel_ = false)
    /\ (finds_member b channel_ = true
        <-> JsObject.get (invertedMapping b) (toLowerCase channel_) = None
            /\ JsObject.inherited (toLowerCase channel_) = true)
    /\ (finds_member b channel_ = true ->
        sendToDiscord b author_ channel_ text
        = ([], Throw (TypeError "discordChannelName.slice is not a function")))
    /\ List.length (sends (sendToDiscord b author_ channel_ text)) <= 1
    /\ (forall e, In e (trace (sendToDiscord b author_ channel_ text)) ->
                  match e with
                  | Log _ _ | DiscordSendMessage _ _ => True
                  | _ => False
                  end)
    /\ (forall spelling, toLowerCase spelling = toLowerCase channel_ ->
                         sendToDiscord b author_ spelling text
                         = sendToDiscord b author_ channel_ text)
    /\ sendToDiscord b author_ (toLowerCase channel_) text
       = sendToDiscord b author_ channel_ text
    /\ (forall discordChannelName,
          truthy (JsObject.get (invertedMapping b) (toLowerCase channel_))
          = Some discordChannelName ->
          channels_get (discord b) "name" (slice1 discordChannelName) = None ->
          trace (sendToDiscord b author_ channel_ text)
          = [Log info "Tried to send a message to a channel the bot isn't in: "]).
Proof.
  intros b author_ channel_ text.
  split; [|split; [apply finds_member_spec|split; [apply sendToDiscord_throws|]]].
  { split.
    - intros Hok. destruct (finds_member b channel_) eqn:E; [|reflexivity].
      rewrite (sendToDiscord_throws b author_ channel_ text E) in Hok. discriminate.
    - apply sendToDiscord_outcome. }
  split; [|split; [|split; [|split]]].
  - rewrite sendToDiscord_sends. destruct (bridged_to b channel_); simpl; lia.
  - unfold sendToDiscord.
    destruct (JsObject.lookup (invertedMapping b) (toLowerCase channel_)) as [|[|c dn]|k];
      try (intros e []).
    destruct (channels_get (discord b) "name" (slice1 (String c dn))); cbn;
      intros e H; intuition (subst; exact I).
  - intros spelling Heq. unfold sendToDiscord. now rewrite Heq.
  - unfold sendToDiscord. now rewrite toLowerCase_idempotent.
  - intros dn Hdn Hnone. unfold sendToDiscord, JsObject.lookup.
    destruct (JsObject.get (invertedMapping b) (toLowerCase channel_)) as [[|c d]|];
      try discriminate.
    cbn [truthy] in Hdn. injection Hdn as <-. now rewrite Hnone.
Qed.

Lemma sendToDiscord_behaviour_witness :
  sendToDiscord Sample.bot "alice" "#RELAY" "hi" = sendToDiscord Sample.bot "alice" "#relay" "hi"
  /\ trace (sendToDiscord Minimal.bot "alice" "#Relay" "hi")
     = [Log info "Tried to send a message to a channel the bot isn't in: "]
  /\ sendToDiscord Sample.bot "alice" "Constructor" "hi"
     = ([], Throw (TypeError "discordChannelName.slice is not a function")).
Proof.
  split; [|split].
  - destruct (sendToDiscord_behaviour Sample.bot "alice" "#relay" "hi")
      as (_ & _ & _ & _ & _ & Hspell & _).
    apply Hspell. reflexivity.
  - destruct (sendToDiscord_behaviour Minimal.bot "alice" "#Relay" "hi")
      as (_ & _ & _ & _ & _ & _ & _ & Hmissing).
    apply (Hmissing "#lounge"); reflexivity.
  - destruct (sendToDiscord_behaviour Sample.bot "alice" "Constructor" "hi")
      as (_ & _ & Hthrow & _).
    apply Hthrow. reflexivity.
Defined.

(** ** The constructor *)

(** The constructor refuses an options object at the first required field,
    in the order server, nickname, channelMapping, discordToken, that is
    missing or empty, with a [ConfigurationError] that names it, and
    whatever the validator would say; it passes on the validator's refusal;
    and it builds a bridge exactly when the four fields are there and the
    validator accepts the mapping. *)
Theorem constructor_requires_fields :
  forall validate client options,
    (truthy (Options.server options) = None ->
     constructor validate client options
     = Throw (ConfigurationError "Missing configuration field server"))
    /\ (truthy (Options.server options) <> None ->
        truthy (Options.nickname options) = None ->
        constructor validate client options
        = Throw (ConfigurationError "Missing configuration field nickname"))
    /\ (truthy (Options.server options) <> None ->
        truthy (Options.nickname options) <> None ->
        Options.channelMapping options = None ->
        constructor validate client options
        = Throw (ConfigurationError "Missing configuration field channelMapping"))
    /\ (truthy (Options.server options) <> None ->
        truthy (Options.nickname options) <> None ->
        Options.channelMapping options <> None ->
        truthy (Options.discordToken options) = None ->
        constructor validate client options
        = Throw (ConfigurationError "Missing configuration field discordToken"))
    /\ (forall mapping,
        truthy (Options.server options) <> None ->
        truthy (Options.nickname options) <> None ->
        Options.channelMapping options = Some mapping ->
        truthy (Options.discordToken options) <> None ->
        match validate mapping with
        | Throw e => constructor validate client options = Throw e
        | Ok _ => exists bot, constructor validate client options = Ok bot
        end)
    /\ (forall bot,
        constructor validate client options = Ok bot ->
        truthy (Options.server options) = Some (server bot)
        /\ truthy (Options.nickname options) = Some (nickname bot)
        /\ truthy (Options.discordToken options) = Some (discordToken bot)
        /\ exists mapping,
             Options.channelMapping options = Some mapping
             /\ validate mapping = Ok tt).
Proof.
  intros validate client options.
  unfold constructor, missing_field, REQUIRED_FIELDS, has_field. cbn.
  destruct (Options.server options) as [[|c1 s1]|];
    destruct (Options.nickname options) as [[|c2 s2]|];
    destruct (Options.channelMapping options) as [mapping|];
    destruct (Options.discordToken options) as [[|c4 s4]|]; cbn.
  all: split; [|split; [|split; [|split; [|split]]]].
  all: try congruence; try discriminate.
  - intros mapping' _ _ Hm _. injection Hm as <-.
    destruct (validate mapping); eauto.
  - intros bot Hbot.
    destruct (validate mapping) as [[]|] eqn:Ev; [|discriminate].
    injection Hbot as <-. cbn. repeat split. eauto.
Qed.

Lemma constructor_requires_fields_witness :
  constructor Sample.validate Sample.client
    {| Options.server := Some "irc.example.org"; Options.nickname := Some "";
       Options.channelMapping := None; Options.discordToken := None;
       Options.commandCharacters := None; Options.ircNickColor := None;
       Options.relayChannelJoins := None; Options.relayChannelParts := None;
       Options.relayChannelQuits := None; Options.relayChannelNames := None;
       Options.autoSendCommands := None |}
  = Throw (ConfigurationError "Missing configuration field nickname").
Proof.
  match goal with |- constructor ?v ?c ?o = _ =>
    destruct (constructor_requires_fields v c o) as (_ & Hnick & _)
  end.
  apply Hnick; [discriminate | reflexivity].
Defined.

(** A bridge built from options that leave the optional fields out treats
    no text as a command, colours the nicks, sends no raw command on
    registration and relays no join, part, kick, quit, kill or name list:
    each of these events only leaves its debug line. *)
Theorem constructor_defaults :
  forall validate client options bot,
    constructor validate client options = Ok bot ->
    (Options.commandCharacters options = None ->
     forall text, isCommandMessage bot text = false)
    /\ (Options.ircNickColor options <> Some false ->
        forall wrap n, displayUsername wrap bot n = wrap (nickColor n) n)
    /\ (Options.autoSendCommands options = None -> sends (on_registered bot) = [])
    /\ (Options.relayChannelJoins options = None ->
        forall channel_ nick, trace (on_join bot channel_ nick) = [Log debug "Channel join"])
    /\ (Options.relayChannelParts options = None ->
        forall channel_ nick by_ reason,
          trace (on_part bot channel_ nick reason) = [Log debug "Channel part"]
          /\ trace (on_kick bot channel_ nick by_ reason) = [Log debug "Channel kick"])
    /\ (Options.relayChannelQuits options = None ->
        forall nick reason channels_,
          trace (on_quit bot nick reason channels_) = [Log debug "Channel quit"]
          /\ trace (on_kill bot nick reason channels_) = [Log debug "Channel kill"])
    /\ (Options.relayChannelNames options = None ->
        forall channel_ nicks, trace (on_names bot channel_ nicks) = [Log debug "Channel names"]).
Proof.
  intros validate client options bot Hc.
  destruct (constructor_fields _ _ _ _ Hc)
    as (_ & Hcmd & Hcol & Hj & Hp & Hq & Hn & Hauto & _).
  split; [|split; [|split; [|split; [|split; [|split]]]]].
  - intros H text. unfold isCommandMessage. rewrite Hcmd, H. cbn.
    destruct (char0 text); reflexivity.
  - intros H wrap n. unfold displayUsername. rewrite Hcol.
    destruct (Options.ircNickColor options) as [[|]|]; [reflexivity| |reflexivity].
    now contradiction H.
  - intros H. unfold on_registered. rewrite Hauto, H. reflexivity.
  - intros H channel_ nick. unfold on_join. rewrite Hj, H. reflexivity.
  - intros H channel_ nick by_ reason. unfold on_part, on_kick. rewrite Hp, H.
    split; reflexivity.
  - intros H nick reason channels_. unfold on_quit, on_kill. rewrite Hq, H.
    split; reflexivity.
  - intros H channel_ nicks. unfold on_names. rewrite Hn, H. reflexivity.
Qed.

Lemma constructor_defaults_witness :
  isCommandMessage Minimal.bot ".names" = false
  /\ trace (on_join Minimal.bot "#relay" "alice") = [Log debug "Channel join"].
Proof.
  destruct (constructor_defaults Sample.validate Sample.client Minimal.options Minimal.bot
              eq_refl) as (Hcmd & _ & _ & Hjoin & _).
  split; [apply Hcmd | apply Hjoin]; reflexivity.
Defined.

(** ** Invitations, continued *)

(** The invite listener looks the channel up as the invite spells it, and
    the constructor stores the IRC channels in lower case: an invite that
    spells the channel with an upper-case letter finds no entry of the
    table. It is not followed, though messages of the same channel in the
    same spelling are relayed, unless the name is that of a member
    inherited from [Object.prototype], such as [toString]: that channel
    the bridge joins. *)
Theorem invite_spelling_matters :
  forall validate client options bot mapping channel_ from,
    constructor validate client options = Ok bot ->
    Options.channelMapping options = Some mapping ->
    JsObject.wf mapping ->
    toLowerCase channel_ <> channel_ ->
    JsObject.get (invertedMapping bot) channel_ = None
    /\ (JsObject.inherited channel_ = false ->
        trace (on_invite bot channel_ from)
        = [Log debug "Received invite:";
           Log debug "Channel not found in config, not joining:"])
    /\ (JsObject.inherited channel_ = true ->
        trace (on_invite bot channel_ from)
        = [Log debug "Received invite:"; IrcJoin channel_; Log debug "Joining channel:"]).
Proof.
  intros validate client options bot mapping channel_ from Hc Hm Hwf Hcase.
  assert (Hnone : JsObject.get (invertedMapping bot) channel_ = None).
  { destruct (JsObject.get (invertedMapping bot) channel_) as [d|] eqn:E; [|reflexivity].
    exfalso. apply Hcase.
    now destruct (constructor_inverse_sound _ _ _ _ _ Hc Hm Hwf _ _ E) as (_ & H & _). }
  split; [exact Hnone|].
  unfold on_invite, JsObject.lookup. rewrite Hnone.
  split; intros ->; reflexivity.
Qed.

Lemma invite_spelling_matters_witness :
  joins (on_invite Sample.bot "#Relay" "alice") = []
  /\ joins (on_invite Sample.bot "toString" "alice") = [IrcJoin "toString"]
  /\ sends (on_message Sample.bot "alice" "#Relay" "hi")
     = [DiscordSendMessage Sample.general "**<alice>** hi"].
Proof.
  assert (Hwf : JsObject.wf Sample.mapping).
  { unfold JsObject.wf. simpl. repeat constructor; simpl; intuition discriminate. }
  split; [|split; [|reflexivity]].
  - unfold joins.
    rewrite (proj1 (proj2 (invite_spelling_matters Sample.validate Sample.client
                             Sample.options Sample.bot Sample.mapping "#Relay" "alice"
                             eq_refl eq_refl Hwf ltac:(discriminate))) eq_refl).
    reflexivity.
  - unfold joins.
    rewrite (proj2 (proj2 (invite_spelling_matters Sample.validate Sample.client
                             Sample.options Sample.bot Sample.mapping "toString" "alice"
                             eq_refl eq_refl Hwf ltac:(discriminate))) eq_refl).
    reflexivity.
Defined.

(** ** Registration and commands *)

Lemma forEach_emit_sends {A} (l : list A) (g : A -> effect) :
  trace (forEach l (fun x => emit (g x))) = map g l
  /\ outcome (forEach l (fun x => emit (g x))) = Ok tt.
Proof.
  induction l as [|x l [IHt IHo]]; [split; reflexivity|].
  cbn [forEach map]. rewrite trace_bind, outcome_bind. cbn [emit outcome trace fst snd].
  rewrite IHt, IHo. split; reflexivity.
Qed.

(** On registration the configured raw commands are sent once each, in the
    order of the configuration, after one debug line, and nothing else
    happens. *)
Theorem registered_sends_auto_commands :
  (forall b,
      trace (on_registered b)
      = Log debug "Registered event: " :: map IrcSend (autoSendCommands b)
      /\ outcome (on_registered b) = Ok tt)
  /\ (forall validate client options bot commands,
      constructor validate client options = Ok bot ->
      Options.autoSendCommands options = Some commands ->
      sends (on_registered bot) = map IrcSend commands).
Proof.
  assert (H : forall b,
             trace (on_registered b)
             = Log debug "Registered event: " :: map IrcSend (autoSendCommands b)
             /\ outcome (on_registered b) = Ok tt).
  { intros b. unfold on_registered. rewrite trace_bind, outcome_bind.
    cbn [logger emit outcome trace fst snd app].
    destruct (forEach_emit_sends (autoSendCommands b) IrcSend) as [-> ->].
    split; reflexivity. }
  split; [exact H|].
  intros validate client options bot commands Hc Hauto.
  destruct (constructor_fields _ _ _ _ Hc) as (_ & _ & _ & _ & _ & _ & _ & Hcmds & _).
  unfold sends. rewrite (proj1 (H bot)), Hcmds, Hauto. cbn [or_default filter is_send].
  clear. induction commands as [|c l IH]; [reflexivity|].
  cbn [map filter is_send]. now rewrite IH.
Qed.

Lemma registered_sends_auto_commands_witness :
  sends (on_registered Minimal.identifying_bot)
  = [IrcSend ["PRIVMSG"; "NickServ"; "IDENTIFY secret"]; IrcSend ["MODE"; "bridge"; "+x"]].
Proof.
  apply (proj2 registered_sends_auto_commands Sample.validate Sample.client
           Minimal.identifying_options Minimal.identifying_bot _ eq_refl eq_refl).
Defined.

(** ** The relay to IRC *)

Ltac enter_sendToIRC Hother Hmapped Hbody :=
  unfold sendToIRC; rewrite Hother, Hmapped, Hbody;
  repeat first [rewrite trace_bind | rewrite outcome_bind | rewrite sends_bind];
  cbn [logger emit lift outcome trace sends filter is_send fst snd app].

Lemma forEach_outcome {A} (l : list A) (f : A -> M unit) :
  (forall x, outcome (f x) = Ok tt) -> outcome (forEach l f) = Ok tt.
Proof. intros H. now destruct (forEach_sends l f H). Qed.

Lemma forEach_trace_In {A} (l : list A) (f : A -> M unit) e :
  In e (trace (forEach l f)) -> exists x, In x l /\ In e (trace (f x)).
Proof.
  induction l as [|x l IH]; [intros []|].
  cbn [forEach]. rewrite trace_bind. intros H. apply in_app_or in H.
  destruct H as [H | H].
  - exists x. split; [now left | exact H].
  - destruct (outcome (f x)); [|destruct H].
    destruct (IH H) as [y [Hy He]]. exists y. split; [now right | exact He].
Qed.

(** A command, that is a transformed body whose first character is a
    command character, is dispatched on the rest of the body: [names] sends
    the raw command NAMES for the mapped IRC channel and says nothing;
    [help] relays the usage line back to Discord and sends nothing to IRC;
    anything else is said on IRC as two lines, the announcement and the
    whole body, command character included. The attachments of a command
    are not relayed. A command returns normally, but for [help] when the
    lookup of the IRC channel in the inverse table finds an inherited
    member: then the relay to Discord throws and nothing is sent. *)
Theorem command_dispatch :
  forall wrap b message ircChannel text,
    id (author message) <> id (user (discord b)) ->
    truthy (JsObject.get (channelMapping b) ("#" +:+ name (channel message)))
    = Some ircChannel ->
    parseText b message = Ok text ->
    isCommandMessage b text = true ->
    (slice1 text = "names" ->
     trace (sendToIRC wrap b message)
     = [Log debug "Channel Mapping"; Log debug "Sending raw command to IRC";
        IrcSend ["NAMES"; ircChannel]])
    /\ (slice1 text = "help" ->
        sends (sendToIRC wrap b message)
        = match bridged_to b ircChannel with
          | Some discordChannel =>
              [DiscordSendMessage discordChannel
                 "**<Relay/Help>** Type .names to list users in this channel"]
          | None => []
          end)
    /\ (slice1 text <> "names" -> slice1 text <> "help" ->
        trace (sendToIRC wrap b message)
        = [Log debug "Channel Mapping";
           IrcSay ircChannel
             ("Command sent from Discord by " +:+ username (author message) +:+ ":");
           IrcSay ircChannel text])
    /\ (slice1 text <> "help" \/ finds_member b ircChannel = false ->
        outcome (sendToIRC wrap b message) = Ok tt)
    /\ (slice1 text = "help" -> finds_member b ircChannel = true ->
        sendToIRC wrap b message
        = ([Log debug "Channel Mapping"],
           Throw (TypeError "discordChannelName.slice is not a function"))).
Proof.
  intros wrap b message ircChannel text Hother Hmapped Hbody Hcmd.
  apply String.eqb_neq in Hother.
  split; [|split; [|split; [|split]]].
  - intros Hnames. enter_sendToIRC Hother Hmapped Hbody.
    rewrite Hcmd, Hnames. reflexivity.
  - intros Hhelp. enter_sendToIRC Hother Hmapped Hbody.
    rewrite Hcmd, Hhelp. cbn [String.eqb Ascii.eqb Bool.eqb].
    rewrite sendToDiscord_sends. reflexivity.
  - intros Hn Hh. enter_sendToIRC Hother Hmapped Hbody.
    apply String.eqb_neq in Hn, Hh. rewrite Hcmd, Hn, Hh. reflexivity.
  - intros Hok. enter_sendToIRC Hother Hmapped Hbody. rewrite Hcmd.
    destruct (String.eqb (slice1 text) "names"); [reflexivity|].
    destruct (String.eqb (slice1 text) "help") eqn:Eh; [|reflexivity].
    apply String.eqb_eq in Eh. apply sendToDiscord_outcome.
    destruct Hok as [Hne | Hplain]; [contradiction | exact Hplain].
  - intros Hhelp Hmember. unfold sendToIRC. rewrite Hother, Hmapped, Hbody.
    cbn [lift bind logger emit app]. rewrite Hcmd, Hhelp.
    cbn [String.eqb Ascii.eqb Bool.eqb].
    rewrite (sendToDiscord_throws b _ ircChannel _ Hmember). reflexivity.
Qed.

Lemma command_dispatch_witness :
  trace (sendToIRC Sample.wrap Sample.bot (Sample.message Sample.alice Sample.general ".whois bob"))
  = [Log debug "Channel Mapping";
     IrcSay "#relay" "Command sent from Discord by alice:";
     IrcSay "#relay" ".whois bob"].
Proof.
  refine (proj1 (proj2 (proj2
            (command_dispatch Sample.wrap Sample.bot
               (Sample.message Sample.alice Sample.general ".whois bob")
               "#relay" ".whois bob" _ eq_refl eq_refl eq_refl))) _ _); discriminate.
Defined.

(** An ordinary message, one that is no command, is said once on the mapped
    IRC channel behind the author in angle brackets, unless its transformed
    body is empty; then each attachment's URL is said behind the same
    prefix, in order. Nothing else is sent. *)
Theorem ordinary_message_relayed :
  forall wrap b message ircChannel text,
    id (author message) <> id (user (discord b)) ->
    truthy (JsObject.get (channelMapping b) ("#" +:+ name (channel message)))
    = Some ircChannel ->
    parseText b message = Ok text ->
    isCommandMessage b text = false ->
    let shown := displayUsername wrap b (username (author message)) in
    sends (sendToIRC wrap b message)
    = (if String.eqb text "" then []
       else [IrcSay ircChannel ("<" +:+ shown +:+ "> " +:+ text)])
      ++ map (fun a => IrcSay ircChannel ("<" +:+ shown +:+ "> " +:+ url a))
           (or_default (attachments message) [])
    /\ outcome (sendToIRC wrap b message) = Ok tt.
Proof.
  intros wrap b message ircChannel text Hother Hmapped Hbody Hcmd shown.
  apply String.eqb_neq in Hother. split.
  - enter_sendToIRC Hother Hmapped Hbody. rewrite Hcmd.
    rewrite sends_bind.
    assert (Hsay : outcome (if String.eqb text "" then ret tt
                            else logger debug "Sending message to IRC" ;;
                                 emit (IrcSay ircChannel ("<" +:+ shown +:+ "> " +:+ text)))
                   = Ok tt) by (destruct (String.eqb text ""); reflexivity).
    fold shown. rewrite Hsay. f_equal.
    + destruct (String.eqb text ""); reflexivity.
    + destruct (attachments message) as [[|a l]|]; try reflexivity.
      apply attachments_sends.
  - enter_sendToIRC Hother Hmapped Hbody. rewrite Hcmd.
    rewrite outcome_bind.
    destruct (String.eqb text ""); cbn [outcome ret snd bind logger emit];
      (destruct (attachments message) as [[|a l]|]; try reflexivity;
       apply forEach_outcome; reflexivity).
Qed.

Lemma ordinary_message_relayed_witness :
  sends (sendToIRC Sample.wrap Sample.bot
           (Sample.message Sample.alice Sample.general ("one" +:+ String LF "two")))
  = [IrcSay "#relay" "<[magenta]alice> one two"].
Proof.
  refine (proj1 (ordinary_message_relayed Sample.wrap Sample.bot
                   (Sample.message Sample.alice Sample.general ("one" +:+ String LF "two"))
                   "#relay" "one two" _ eq_refl eq_refl eq_refl)).
  discriminate.
Defined.

Lemma sendToDiscord_trace_In b author_ channel_ text e :
  In e (trace (sendToDiscord b author_ channel_ text)) ->
  match e with
  | Log _ _ => True
  | DiscordSendMessage discordChannel _ => bridged_to b channel_ = Some discordChannel
  | _ => False
  end.
Proof.
  unfold sendToDiscord, bridged_to, JsObject.lookup.
  destruct (JsObject.get (invertedMapping b) (toLowerCase channel_)) as [[|c dn]|];
    cbn [truthy].
  - intros [].
  - destruct (channels_get (discord b) "name" (slice1 (String c dn))); cbn;
      intros H; intuition (subst; auto).
  - destruct (JsObject.inherited (toLowerCase channel_)); intros [].
Qed.

Lemma sendToIRC_returns wrap b message ircChannel text :
  String.eqb (id (author message)) (id (user (discord b))) = false ->
  truthy (JsObject.get (channelMapping b) ("#" +:+ name (channel message)))
  = Some ircChannel ->
  parseText b message = Ok text ->
  (isCommandMessage b text = true -> slice1 text = "help" ->
   finds_member b ircChannel = false) ->
  outcome (sendToIRC wrap b message) = Ok tt.
Proof.
  intros Hother Hmapped Hbody Hhelp. enter_sendToIRC Hother Hmapped Hbody.
  destruct (isCommandMessage b text).
  - destruct (String.eqb (slice1 text) "names"); [reflexivity|].
    destruct (String.eqb (slice1 text) "help") eqn:Eh; [|reflexivity].
    apply String.eqb_eq in Eh. apply sendToDiscord_outcome. now apply Hhelp.
  - rewrite outcome_bind.
    destruct (String.eqb text ""); cbn [outcome ret snd bind logger emit];
      (destruct (attachments message) as [[|a l]|]; try reflexivity;
       apply forEach_outcome; reflexivity).
Qed.

(** [sendToIRC] throws in two cases only, both for a message that is not
    the bridge's own and whose channel is mapped: when [parseText] throws,
    with the same exception; and when the message is the command [help]
    and the lookup of the IRC channel in the inverse table finds an
    inherited member, on which the relay to Discord throws. Either way it
    has then logged one line and sent nothing. *)
Theorem sendToIRC_throws_with_parseText :
  forall wrap b message e,
    (outcome (sendToIRC wrap b message) = Throw e
     <-> id (author message) <> id (user (discord b))
         /\ exists ircChannel,
              truthy (JsObject.get (channelMapping b) ("#" +:+ name (channel message)))
              = Some ircChannel
              /\ (parseText b message = Throw e
                  \/ exists text,
                       parseText b message = Ok text
                       /\ isCommandMessage b text = true
                       /\ slice1 text = "help"
                       /\ finds_member b ircChannel = true
                       /\ e = TypeError "discordChannelName.slice is not a function"))
    /\ (outcome (sendToIRC wrap b message) = Throw e ->
        trace (sendToIRC wrap b message) = [Log debug "Channel Mapping"]).
Proof.
  intros wrap b message e.
  destruct (String.eqb (id (author message)) (id (user (discord b)))) eqn:Hself.
  { assert (H : sendToIRC wrap b message = ret tt)
      by (unfold sendToIRC; now rewrite Hself).
    rewrite H. apply String.eqb_eq in Hself. cbn. split; [split|]; try discriminate.
    intros [Hne _]. contradiction. }
  pose proof Hself as Hother. apply String.eqb_neq in Hother.
  destruct (truthy (JsObject.get (channelMapping b) ("#" +:+ name (channel message))))
    as [ircChannel|] eqn:Hmapped.
  2:{ assert (H : sendToIRC wrap b message = ([Log debug "Channel Mapping"], Ok tt))
        by (unfold sendToIRC; now rewrite Hself, Hmapped).
      rewrite H. cbn. split; [split|]; try discriminate.
      intros (_ & irc & Hn & _). discriminate. }
  destruct (parseText b message) as [text|e'] eqn:Hbody.
  - destruct (isCommandMessage b text) eqn:Hcmd;
      [destruct (String.eqb (slice1 text) "help") eqn:Eh;
       [destruct (finds_member b ircChannel) eqn:Hmem|]|].
    + apply String.eqb_eq in Eh.
      assert (H : sendToIRC wrap b message
                  = ([Log debug "Channel Mapping"],
                     Throw (TypeError "discordChannelName.slice is not a function"))).
      { unfold sendToIRC. rewrite Hself, Hmapped, Hbody.
        cbn [lift bind logger emit app]. rewrite Hcmd, Eh.
        cbn [String.eqb Ascii.eqb Bool.eqb].
        rewrite (sendToDiscord_throws b _ ircChannel _ Hmem). reflexivity. }
      rewrite H. cbn. split; [split|]; try reflexivity.
      * intros Heq. injection Heq as <-. split; [exact Hother|].
        exists ircChannel. split; [reflexivity|]. right. exists text. repeat split; auto.
      * intros (_ & irc & Hirc & [Hthrow | (t & Ht & _ & _ & _ & ->)]);
          [discriminate | reflexivity].
    + assert (Hok : outcome (sendToIRC wrap b message) = Ok tt)
        by (apply (sendToIRC_returns wrap b message ircChannel text); auto).
      rewrite Hok. split; [split|]; try discriminate.
      intros (_ & irc & Hirc & [Hthrow | (t & Ht & _ & _ & Hm & _)]); [discriminate|].
      injection Hirc as <-. congruence.
    + assert (Hok : outcome (sendToIRC wrap b message) = Ok tt).
      { apply (sendToIRC_returns wrap b message ircChannel text); auto.
        intros _ Hh. apply String.eqb_neq in Eh. contradiction. }
      rewrite Hok. split; [split|]; try discriminate.
      intros (_ & irc & Hirc & [Hthrow | (t & Ht & _ & Hh & _)]); [discriminate|].
      injection Ht as <-. apply String.eqb_neq in Eh. contradiction.
    + assert (Hok : outcome (sendToIRC wrap b message) = Ok tt).
      { apply (sendToIRC_returns wrap b message ircChannel text); auto.
        intros Hc. congruence. }
      rewrite Hok. split; [split|]; try discriminate.
      intros (_ & irc & Hirc & [Hthrow | (t & Ht & Hc & _)]); [discriminate|].
      injection Ht as <-. congruence.
  - assert (H : sendToIRC wrap b message = ([Log debug "Channel Mapping"], Throw e'))
      by (unfold sendToIRC; now rewrite Hself, Hmapped, Hbody).
    rewrite H. cbn. split; [split|]; try reflexivity.
    + intros Heq. injection Heq as ->. split; [exact Hother|].
      exists ircChannel. split; [reflexivity|]. now left.
    + intros (_ & irc & _ & [Heq | (t & Ht & _)]); [|discriminate].
      now injection Heq as ->.
Qed.

Lemma sendToIRC_throws_with_parseText_witness :
  trace (sendToIRC Sample.wrap Sample.bot (Sample.message Sample.alice Sample.general "see <#7>"))
  = [Log debug "Channel Mapping"]
  /\ outcome (sendToIRC Sample.wrap Quirks.proto_bot
                (Sample.message Sample.alice Sample.general ".help"))
     = Throw (TypeError "discordChannelName.slice is not a function").
Proof.
  split.
  - apply (proj2 (sendToIRC_throws_with_parseText Sample.wrap Sample.bot
                    (Sample.message Sample.alice Sample.general "see <#7>")
                    (TypeError "Cannot read property 'name' of null"))).
    reflexivity.
  - apply (proj1 (sendToIRC_throws_with_parseText Sample.wrap Quirks.proto_bot
                    (Sample.message Sample.alice Sample.general ".help")
                    (TypeError "discordChannelName.slice is not a function"))).
    split; [discriminate|]. exists "__proto__". split; [reflexivity|].
    right. exists ".help". repeat split.
Defined.

(** Whatever [sendToIRC] says or sends on IRC goes to the IRC channel that
    the forward table gives for the message's Discord channel, a raw
    command it sends is NAMES for that channel, what it sends to Discord
    (the help line) goes to the Discord channel that IRC channel is bridged
    to, and it never joins a channel. *)
Theorem sendToIRC_targets :
  forall wrap b message e,
    In e (trace (sendToIRC wrap b message)) ->
    let mapped := truthy (JsObject.get (channelMapping b) ("#" +:+ name (channel message))) in
    match e with
    | IrcSay target _ => mapped = Some target
    | IrcSend args => exists ircChannel, mapped = Some ircChannel /\ args = ["NAMES"; ircChannel]
    | IrcJoin _ => False
    | DiscordSendMessage discordChannel _ =>
        exists ircChannel, mapped = Some ircChannel /\ bridged_to b ircChannel = Some discordChannel
    | Log _ _ => True
    end.
Proof.
  intros wrap b message e. cbv zeta. unfold sendToIRC.
  destruct (String.eqb (id (author message)) (id (user (discord b)))); [intros []|].
  destruct (truthy (JsObject.get (channelMapping b) ("#" +:+ name (channel message))))
    as [ircChannel|]; [|cbn; intros [<- | []]; exact I].
  destruct (parseText b message) as [text|e']; [|cbn; intros [<- | []]; exact I].
  rewrite trace_bind. cbn [logger emit outcome trace fst snd app].
  rewrite trace_bind. cbn [lift outcome trace fst snd app].
  intros [<- | Hin]; [exact I|].
  destruct (isCommandMessage b text).
  - destruct (String.eqb (slice1 text) "names").
    { cbn in Hin. destruct Hin as [<- | [<- | []]]; [exact I | eauto]. }
    destruct (String.eqb (slice1 text) "help").
    { apply sendToDiscord_trace_In in Hin. destruct e; try contradiction; eauto. }
    cbn in Hin. destruct Hin as [<- | [<- | []]]; reflexivity.
  - rewrite trace_bind in Hin. apply in_app_or in Hin. destruct Hin as [Hin | Hin].
    + destruct (String.eqb text ""); cbn in Hin; [destruct Hin|].
      destruct Hin as [<- | [<- | []]]; [exact I | reflexivity].
    + destruct (outcome _) as [u|]; [|destruct Hin].
      destruct (attachments message) as [[|att l]|]; try (destruct Hin; fail).
      apply forEach_trace_In in Hin. destruct Hin as [x [_ Hin]].
      cbn in Hin. destruct Hin as [<- | [<- | []]]; [exact I | reflexivity].
Qed.

Lemma sendToIRC_targets_witness :
  truthy (JsObject.get (channelMapping Sample.bot) ("#" +:+ name Sample.general)) = Some "#relay".
Proof.
  apply (sendToIRC_targets Sample.wrap Sample.bot
           (Sample.message Sample.alice Sample.general "hello")
           (IrcSay "#relay" "<[magenta]alice> hello")).
  right. right. left. reflexivity.
Defined.

(** A text is a command exactly when it is not empty and its first
    character, as a one-character string, is one of the configured command
    characters; the empty text is never a command, nor is any text when no
    command character is configured, and a configured entry of more than
    one character matches nothing. *)
Theorem isCommandMessage_first_character :
  forall b text,
    (isCommandMessage b text = true
     <-> exists c rest, text = String c rest /\ In (String c "") (commandCharacters b))
    /\ isCommandMessage b "" = false
    /\ (commandCharacters b = [] -> isCommandMessage b text = false)
    /\ (forall c rest, text = String c rest ->
          isCommandMessage b text
          = existsb (String.eqb (String c "")) (commandCharacters b)).
Proof.
  intros b text. unfold isCommandMessage. split; [|split; [reflexivity|split]].
  - destruct text as [|c rest]; cbn [char0].
    + split; [discriminate | intros (c & rest & H & _); discriminate].
    + rewrite existsb_exists. split.
      * intros (x & Hin & Hx). apply String.eqb_eq in Hx. subst x. eauto.
      * intros (c' & rest' & Heq & Hin). injection Heq as -> ->.
        exists (String c' ""). split; [exact Hin | apply String.eqb_refl].
  - intros ->. destruct (char0 text); reflexivity.
  - intros c rest ->. reflexivity.
Qed.

Lemma isCommandMessage_first_character_witness :
  isCommandMessage Minimal.bot ".names" = false
  /\ isCommandMessage Sample.bot ".names" = true.
Proof.
  split.
  - destruct (isCommandMessage_first_character Minimal.bot ".names") as (_ & _ & H & _).
    apply H. reflexivity.
  - destruct (isCommandMessage_first_character Sample.bot ".names") as (H & _).
    apply H. exists "."%char, "names". split; [reflexivity | now left].
Defined.

(** ** The other IRC events *)

(** A notice is relayed between asterisks and an action between
    underscores, under the author's name. With the toggle set, a join, a
    part, a kick and a name list are each relayed as one message of the
    channel they happened in: the author is the channel with [/join],
    [/part] or [/kick] behind it (the channel alone for a name list), and
    an absent reason of a part or a kick is the empty string. Like every
    relay to Discord, the message is sent only if that channel is bridged. *)
Theorem irc_events_relayed :
  forall b,
    let relayed author_ channel_ text :=
      match bridged_to b channel_ with
      | Some discordChannel =>
          [DiscordSendMessage discordChannel
             ("**<" +:+ author_ +:+ ">** " +:+ withMentions b text)]
      | None => []
      end in
    (forall author_ to text,
        sends (on_notice b author_ to text) = relayed author_ to ("*" +:+ text +:+ "*")
        /\ sends (on_action b author_ to text) = relayed author_ to ("_" +:+ text +:+ "_"))
    /\ (relayChannelJoins b = true ->
        forall channel_ nick,
          sends (on_join b channel_ nick)
          = relayed (channel_ +:+ "/join") channel_ (nick +:+ " joined " +:+ channel_))
    /\ (relayChannelParts b = true ->
        forall channel_ nick by_ reason,
          sends (on_part b channel_ nick reason)
          = relayed (channel_ +:+ "/part") channel_
              (nick +:+ " parted " +:+ channel_ +:+ ": " +:+ or_default reason "")
          /\ sends (on_kick b channel_ nick by_ reason)
             = relayed (channel_ +:+ "/kick") channel_
                 (nick +:+ " kicked from " +:+ channel_ +:+ " by " +:+ by_ +:+ ": "
                  +:+ or_default reason ""))
    /\ (relayChannelNames b = true ->
        forall channel_ nicks,
          sends (on_names b channel_ nicks)
          = relayed channel_ channel_ ("Users: " +:+ join_space (JsObject.keys nicks))).
Proof.
  intros b relayed. unfold relayed. split; [|split; [|split]].
  - intros author_ to text. unfold on_notice, on_action.
    now rewrite !sendToDiscord_sends.
  - intros H channel_ nick. unfold on_join. rewrite H, sends_bind.
    cbn [logger emit outcome sends trace filter is_send fst snd app].
    apply sendToDiscord_sends.
  - intros H channel_ nick by_ reason. unfold on_part, on_kick. rewrite H, !sends_bind.
    cbn [logger emit outcome sends trace filter is_send fst snd app].
    split; apply sendToDiscord_sends.
  - intros H channel_ nicks. unfold on_names. rewrite H, sends_bind.
    cbn [logger emit outcome sends trace filter is_send fst snd app].
    apply sendToDiscord_sends.
Qed.

Lemma irc_events_relayed_witness :
  sends (on_kick Minimal.relaying_bot "#relay" "bob" "op" None)
  = [DiscordSendMessage Sample.general "**<#relay/kick>** bob kicked from #relay by op: "]
  /\ sends (on_names Minimal.relaying_bot "#other" [("alice", ""); ("bob", "@")])
     = [DiscordSendMessage Sample.random "**<#other>** Users: alice bob"].
Proof.
  destruct (irc_events_relayed Minimal.relaying_bot) as (_ & _ & Hparts & Hnames).
  split.
  - rewrite (proj2 (Hparts eq_refl "#relay" "bob" "op" None)). reflexivity.
  - rewrite (Hnames eq_refl). reflexivity.
Defined.

(** ** Mentions on the way to Discord *)

Lemma at_name_at_other c s : Ascii.eqb "@" c = false -> at_name_at (String c s) = None.
Proof. destruct c as [[] [] [] [] [] [] [] []]; try reflexivity; discriminate. Qed.

Lemma substring_drop k s :
  k <= String.length s -> substring 0 k s +:+ drop k s = s.
Proof.
  revert k. induction s as [|c s IH]; intros [|k] Hk; simpl in *; try reflexivity; try lia.
  rewrite IH by lia. reflexivity.
Qed.

Lemma substring_length k s :
  k <= String.length s -> String.length (substring 0 k s) = k.
Proof.
  revert k. induction s as [|c s IH]; intros [|k] Hk; simpl in *; try reflexivity; try lia.
  rewrite IH by lia. reflexivity.
Qed.

Lemma span_length p s : String.length (fst (span p s)) <= String.length s.
Proof.
  induction s as [|c s IH]; simpl; [lia|].
  destruct (p c); simpl; [|lia].
  destruct (span p s). simpl in *. lia.
Qed.

Lemma last_boundary_bounds run k :
  last_boundary run = Some k -> 1 <= k <= String.length run.
Proof.
  revert k. induction run as [|c r IH]; intros k; simpl; [discriminate|].
  destruct (last_boundary r) as [k'|].
  - intros H. injection H as <-. specialize (IH k' eq_refl). lia.
  - destruct (xorb _ _); [|discriminate]. intros H. injection H as <-. lia.
Qed.

(** What [at_name_at] finds is the text that follows the [@]. *)
Lemma at_name_at_prefix s uname :
  at_name_at s = Some uname ->
  exists t, s = String "@" t
            /\ uname = substring 0 (String.length uname) t
            /\ String.length uname <= String.length t.
Proof.
  destruct s as [|c t]; [discriminate|].
  destruct (Ascii.eqb "@" c) eqn:E; [|now rewrite at_name_at_other].
  apply Ascii.eqb_eq in E. subst c. cbn [at_name_at].
  destruct (last_boundary (fst (span (fun c => negb (is_space c)) t))) as [k|] eqn:Ek;
    [|discriminate].
  intros H. injection H as <-. apply last_boundary_bounds in Ek.
  pose proof (span_length (fun c => negb (is_space c)) t) as Hs.
  exists t. rewrite substring_length by lia. repeat split. lia.
Qed.

Lemma replace_global_from_skip matcher a b :
  replace_global_from matcher (String.length a) (a +:+ b) = replace_global_from matcher 0 b.
Proof.
  induction a as [|c a IH]; simpl.
  - destruct b; reflexivity.
  - exact IH.
Qed.

Lemma has_char_cons c c' s : has_char c (String c' s) = Ascii.eqb c c' || has_char c s.
Proof. reflexivity. Qed.

Lemma is_word_not_space c : is_word c = true -> is_space c = false.
Proof. destruct c as [[] [] [] [] [] [] [] []]; try reflexivity; discriminate. Qed.

Lemma span_word_run uname rest :
  forallb is_word (chars uname) = true ->
  match rest with
  | EmptyString => True
  | String c _ => is_space c = true
  end ->
  span (fun c => negb (is_space c)) (uname +:+ rest) = (uname, rest).
Proof.
  intros Hw Hrest. induction uname as [|c u IH]; simpl.
  - destruct rest as [|c r]; [reflexivity|]. simpl. now rewrite Hrest.
  - simpl in Hw. apply andb_true_iff in Hw. destruct Hw as [Hc Hu].
    rewrite (is_word_not_space c Hc). simpl. now rewrite (IH Hu).
Qed.

Lemma last_boundary_word_run uname :
  uname <> "" -> forallb is_word (chars uname) = true ->
  last_boundary uname = Some (String.length uname).
Proof.
  induction uname as [|c u IH]; [congruence|]. intros _ Hw.
  simpl in Hw. apply andb_true_iff in Hw. destruct Hw as [Hc Hu].
  cbn [last_boundary]. destruct u as [|c' u'].
  - simpl. rewrite Hc. reflexivity.
  - rewrite IH by (congruence || exact Hu). reflexivity.
Qed.

Lemma substring_prefix a b : substring 0 (String.length a) (a +:+ b) = a.
Proof.
  induction a as [|c a IH]; simpl.
  - destruct b; reflexivity.
  - now rewrite IH.
Qed.

(** The replacement copies a text in which no matched name is that of a
    known user. *)
Lemma withMentions_from_copy b s :
  forall skip,
    skip <= String.length s ->
    (forall uname, In uname (names_matched_from skip s) ->
                   users_get (discord b) "username" uname = None) ->
    replace_global_from
      (fun s =>
         match at_name_at s with
         | Some uname =>
             Some (S (String.length uname),
                   match users_get (discord b) "username" uname with
                   | Some user_ => mention user_
                   | None => "@" +:+ uname
                   end)
         | None => None
         end) skip s
    = drop skip s.
Proof.
  induction s as [|c s IH]; intros skip Hskip Hnone.
  - destruct skip; reflexivity.
  - cbn [replace_global_from names_matched_from] in *. destruct skip as [|k].
    + destruct (at_name_at (String c s)) as [uname|] eqn:E.
      * rewrite (Hnone uname (or_introl eq_refl)).
        destruct (at_name_at_prefix _ _ E) as (t & Ht & Hu & Hlen).
        injection Ht as -> <-. cbn [pred drop].
        rewrite IH; [|exact Hlen|intros u Hin; apply Hnone; now right].
        cbn [String.append]. f_equal.
        rewrite Hu at 1. now apply substring_drop.
      * rewrite IH; [reflexivity|lia|exact Hnone].
    + simpl in Hskip. cbn [drop]. apply IH; [lia|exact Hnone].
Qed.

(** Mention re-injection is local and conservative. Text up to the first
    [@] is copied. An [@] followed by a name of word characters that ends
    at a space or at the end of the text is replaced by the mention of the
    Discord user of that name, and kept as it is when there is no such
    user. A text without [@] is relayed unchanged, and so is any text when
    no user is known under any of the names that the pattern matches in
    it, whatever other users the client knows. *)
Theorem withMentions_injects_known_users :
  forall b,
    (forall text, has_char "@" text = false -> withMentions b text = text)
    /\ (forall before text,
          has_char "@" before = false ->
          withMentions b (before +:+ text) = before +:+ withMentions b text)
    /\ (forall uname rest,
          uname <> "" ->
          forallb is_word (chars uname) = true ->
          match rest with
          | EmptyString => True
          | String c _ => is_space c = true
          end ->
          withMentions b ("@" +:+ uname +:+ rest)
          = match users_get (discord b) "username" uname with
            | Some user_ => mention user_
            | None => "@" +:+ uname
            end +:+ withMentions b rest)
    /\ (forall text,
          (forall uname, In uname (names_matched text) ->
                         users_get (discord b) "username" uname = None) ->
          withMentions b text = text).
Proof.
  intros b.
  assert (Hbefore : forall before text,
             has_char "@" before = false ->
             withMentions b (before +:+ text) = before +:+ withMentions b text).
  { unfold withMentions, replace_global. intros before text.
    induction before as [|c s IH]; intros Hno; [reflexivity|].
    rewrite has_char_cons in Hno. apply orb_false_iff in Hno. destruct Hno as [Hc Hs].
    cbn [String.append replace_global_from]. rewrite (at_name_at_other c _ Hc).
    cbv beta iota. f_equal. exact (IH Hs). }
  split; [|split; [exact Hbefore|split]].
  - intros text Hno. rewrite <- (append_empty_r text) at 1.
    rewrite (Hbefore text "" Hno). cbn. apply append_empty_r.
  - intros uname rest Hne Hw Hrest. unfold withMentions, replace_global.
    cbn [String.append replace_global_from at_name_at].
    rewrite (span_word_run uname rest Hw Hrest). cbn [fst].
    rewrite (last_boundary_word_run uname Hne Hw), substring_prefix.
    cbn [pred]. rewrite replace_global_from_skip. reflexivity.
  - intros text Hnone. unfold withMentions, replace_global.
    rewrite withMentions_from_copy; [reflexivity|lia|exact Hnone].
Qed.

Lemma withMentions_injects_known_users_witness :
  withMentions Sample.bot "hi @alice and @carol" = "hi <@2> and @carol"
  /\ withMentions Sample.bot "mail a@b.c, @x@alice or @carol!" = "mail a@b.c, @x@alice or @carol!".
Proof.
  destruct (withMentions_injects_known_users Sample.bot) as (_ & Hbefore & Hname & Hnone).
  split.
  - change (withMentions Sample.bot
              ("hi " +:+ "@" +:+ "alice" +:+ " and " +:+ "@" +:+ "carol" +:+ "")
            = "hi <@2> and @carol").
    rewrite (Hbefore "hi " _ eq_refl).
    rewrite (Hname "alice" _); [|discriminate|reflexivity|reflexivity].
    rewrite (Hbefore " and " _ eq_refl).
    rewrite (Hname "carol" ""); [|discriminate|reflexivity|exact I].
    reflexivity.
  - apply Hnone. intros uname [<- | [<- | [<- | []]]]; reflexivity.
Defined.

(** ** The transform to IRC *)

Lemma string_length_append a b :
  String.length (a +:+ b) = String.length a + String.length b.
Proof. induction a as [|c a IH]; simpl; [reflexivity | now rewrite IH]. Qed.

Lemma string_append_assoc a b c : (a +:+ b) +:+ c = a +:+ b +:+ c.
Proof. induction a as [|x a IH]; simpl; [reflexivity | now rewrite IH]. Qed.

Lemma has_char_append c a b : has_char c (a +:+ b) = has_char c a || has_char c b.
Proof. unfold has_char. now rewrite chars_append, existsb_app. Qed.

Lemma prefix_cons a s1 b s2 :
  prefix (String a s1) (String b s2) = if Ascii.eqb a b then prefix s1 s2 else false.
Proof.
  change (prefix (String a s1) (String b s2))
    with (match ascii_dec a b with left _ => prefix s1 s2 | right _ => false end).
  destruct (ascii_dec a b) as [-> | Hne].
  - now rewrite Ascii.eqb_refl.
  - apply Ascii.eqb_neq in Hne. now rewrite Hne.
Qed.

Lemma prefix_append s t : prefix s (s +:+ t) = true.
Proof. apply prefix_correct, substring_prefix. Qed.

(** A pattern is not found in a text that lacks its first character. *)
Lemma index_absent c0 p s :
  has_char c0 s = false -> index 0 (String c0 p) s = None.
Proof.
  induction s as [|b s IH]; intros Hno; [reflexivity|].
  rewrite has_char_cons in Hno. apply orb_false_iff in Hno. destruct Hno as [Hb Hs].
  cbn [index]. rewrite prefix_cons, Hb, (IH Hs). reflexivity.
Qed.

(** It is found right after a text that lacks its first character. *)
Lemma index_after c0 p before after :
  has_char c0 before = false ->
  index 0 (String c0 p) (before +:+ String c0 p +:+ after) = Some (String.length before).
Proof.
  induction before as [|b s IH]; intros Hno.
  - change (index 0 (String c0 p) (String c0 (p +:+ after)) = Some 0).
    cbn [index]. change (String c0 (p +:+ after)) with (String c0 p +:+ after).
    now rewrite prefix_append.
  - rewrite has_char_cons in Hno. apply orb_false_iff in Hno. destruct Hno as [Hb Hs].
    specialize (IH Hs). set (t := String c0 p +:+ after) in *.
    cbn [String.append String.length index]. rewrite prefix_cons, Hb, IH. reflexivity.
Qed.

Lemma substring_skip a n b : substring (String.length a) n (a +:+ b) = substring 0 n b.
Proof. induction a as [|c a IH]; simpl; [now destruct n, b | exact IH]. Qed.

Lemma substring_all s : substring 0 (String.length s) s = s.
Proof. induction s as [|c s IH]; simpl; [reflexivity | now rewrite IH]. Qed.

Lemma GetSubstitution_cons matched before after c r :
  Ascii.eqb "$" c = false ->
  GetSubstitution matched before after (String c r)
  = String c (GetSubstitution matched before after r).
Proof.
  destruct c as [[] [] [] [] [] [] [] []]; try discriminate; intros _; destruct r; reflexivity.
Qed.

(** A replacement text without a dollar sign is inserted as it is. *)
Lemma GetSubstitution_plain matched before after repl :
  has_char "$" repl = false -> GetSubstitution matched before after repl = repl.
Proof.
  induction repl as [|c r IH]; intros Hno; [reflexivity|].
  rewrite has_char_cons in Hno. apply orb_false_iff in Hno. destruct Hno as [Hc Hr].
  rewrite GetSubstitution_cons by exact Hc. now rewrite (IH Hr).
Qed.

Lemma replace_absent c0 p repl s :
  has_char c0 s = false -> replace (String c0 p) repl s = s.
Proof. intros H. unfold replace. now rewrite index_absent. Qed.

Lemma replace_after c0 p repl before after :
  has_char c0 before = false ->
  has_char "$" repl = false ->
  replace (String c0 p) repl (before +:+ String c0 p +:+ after) = before +:+ repl +:+ after.
Proof.
  intros Hb Hr. unfold replace. rewrite index_after by exact Hb.
  cbv zeta. rewrite substring_prefix, GetSubstitution_plain by exact Hr.
  do 2 f_equal.
  rewrite <- string_length_append.
  replace (before +:+ String c0 p +:+ after) with ((before +:+ String c0 p) +:+ after)
    by apply string_append_assoc.
  rewrite substring_skip, string_length_append.
  replace (String.length (before +:+ String c0 p) + String.length after
           - String.length (before +:+ String c0 p)) with (String.length after) by lia.
  apply substring_all.
Qed.

Lemma channel_ref_at_other c s : Ascii.eqb "<" c = false -> channel_ref_at (String c s) = None.
Proof. destruct c as [[] [] [] [] [] [] [] []]; try reflexivity; discriminate. Qed.

Lemma replace_global_fn_absent callback s :
  has_char "<" s = false ->
  replace_global_fn_from channel_ref_at callback 0 s = Ok s.
Proof.
  induction s as [|c s IH]; intros Hno; [reflexivity|].
  rewrite has_char_cons in Hno. apply orb_false_iff in Hno. destruct Hno as [Hc Hs].
  cbn [replace_global_fn_from]. rewrite (channel_ref_at_other c s Hc), (IH Hs). reflexivity.
Qed.

Lemma fold_lines_from_has_char c s :
  Ascii.eqb c " " = false -> has_char c s = false ->
  forall skip,
    has_char c
      (replace_global_from (fun t => option_map (fun n => (n, " ")) (line_break_at t)) skip s)
    = false.
Proof.
  intros Hsp. induction s as [|x s IH]; intros Hno skip; [reflexivity|].
  rewrite has_char_cons in Hno. apply orb_false_iff in Hno. destruct Hno as [Hx Hs].
  cbn [replace_global_from]. destruct skip as [|k]; [|now apply IH].
  destruct (line_break_at (String x s)); cbn [option_map].
  - rewrite has_char_append, (IH Hs). cbn. now rewrite Hsp.
  - rewrite has_char_cons, Hx. now apply IH.
Qed.

Lemma mentions_resolved_absent message :
  has_char "<" (content message) = false -> mentions_resolved message = content message.
Proof.
  unfold mentions_resolved. generalize (content message) as body.
  induction (mentions message) as [|u l IH]; intros body Hno; [reflexivity|].
  cbn [fold_left]. cbn [String.append].
  rewrite (replace_absent "<" _ _ body Hno), (replace_absent "<" _ _ body Hno).
  now apply IH.
Qed.

Lemma fold_lines_has_char c s :
  Ascii.eqb c " " = false -> has_char c s = false -> has_char c (fold_lines s) = false.
Proof. intros Hsp Hno. now apply fold_lines_from_has_char. Qed.

Lemma parseText_without_lt b message :
  has_char "<" (mentions_resolved message) = false ->
  parseText b message = Ok (fold_lines (mentions_resolved message)).
Proof.
  intros Hno. apply replace_global_fn_absent. now apply fold_lines_has_char.
Qed.

(** A body without [<] has no token to replace: whatever mentions the
    message carries, [parseText] returns the body with its line breaks
    folded, and the body itself when it is a single line. *)
Theorem parseText_plain_body :
  forall b message,
    has_char "<" (content message) = false ->
    parseText b message = Ok (fold_lines (content message))
    /\ (single_line (content message) = true -> parseText b message = Ok (content message)).
Proof.
  intros b message Hno.
  assert (H : parseText b message = Ok (fold_lines (content message))).
  { rewrite parseText_without_lt; rewrite mentions_resolved_absent; auto. }
  split; [exact H|]. intros Hline. rewrite H. now rewrite fold_lines_single_line.
Qed.

Lemma parseText_plain_body_witness :
  parseText Sample.bot
    {| author := Sample.alice; channel := Sample.general; content := "2 > 1, @bob";
       mentions := [Sample.bob]; attachments := None |}
  = Ok "2 > 1, @bob".
Proof.
  match goal with |- parseText ?b ?m = _ =>
    destruct (parseText_plain_body b m eq_refl) as [_ H]
  end.
  apply H. reflexivity.
Defined.

Lemma digit_not_bang d : is_digit d = true -> Ascii.eqb d "!" = false.
Proof. destruct d as [[] [] [] [] [] [] [] []]; try reflexivity; discriminate. Qed.

Lemma digit_not_lt d : is_digit d = true -> Ascii.eqb "<" d = false.
Proof. destruct d as [[] [] [] [] [] [] [] []]; try reflexivity; discriminate. Qed.

Lemma digits_without_lt s : forallb is_digit (chars s) = true -> has_char "<" s = false.
Proof.
  induction s as [|d s IH]; [reflexivity|]. simpl. intros H.
  apply andb_true_iff in H. destruct H as [Hd Hs].
  rewrite has_char_cons, (digit_not_lt d Hd). now apply IH.
Qed.

Lemma index_not_here c0 p before rest :
  has_char c0 before = false ->
  prefix (String c0 p) (String c0 rest) = false ->
  has_char c0 rest = false ->
  index 0 (String c0 p) (before +:+ String c0 rest) = None.
Proof.
  intros Hb Hp Hr. induction before as [|x s IH].
  - cbn [String.append index]. now rewrite Hp, index_absent.
  - rewrite has_char_cons in Hb. apply orb_false_iff in Hb. destruct Hb as [Hx Hs].
    specialize (IH Hs). set (t := String c0 rest) in *.
    cbn [String.append index]. now rewrite prefix_cons, Hx, IH.
Qed.

(** The mention of a carried user, in either syntax, becomes [@username].
    Here the rest of the body and the username have no [<], so that the
    token is the only one, the username has no dollar sign, which the
    replacement would interpret, and the id is a number. *)
Theorem parseText_resolves_mention :
  forall b a ch atts u before after,
    forallb is_digit (chars (id u)) = true ->
    has_char "<" before = false ->
    has_char "<" after = false ->
    has_char "<" (username u) = false ->
    has_char "$" (username u) = false ->
    parseText b {| author := a; channel := ch;
                   content := before +:+ "<@" +:+ id u +:+ ">" +:+ after;
                   mentions := [u]; attachments := atts |}
    = Ok (fold_lines (before +:+ "@" +:+ username u +:+ after))
    /\ parseText b {| author := a; channel := ch;
                      content := before +:+ "<@!" +:+ id u +:+ ">" +:+ after;
                      mentions := [u]; attachments := atts |}
       = Ok (fold_lines (before +:+ "@" +:+ username u +:+ after)).
Proof.
  intros b a ch atts u before after Hid Hb Ha Hu Hd.
  assert (Hrepl : has_char "$" ("@" +:+ username u) = false)
    by (cbn [String.append]; rewrite has_char_cons; exact Hd).
  assert (Hout : has_char "<" (before +:+ ("@" +:+ username u) +:+ after) = false).
  { rewrite !has_char_append, Hb, Ha. cbn [String.append]. rewrite has_char_cons, Hu.
    reflexivity. }
  assert (Hidlt : has_char "<" (id u) = false) by now apply digits_without_lt.
  split.
  - rewrite parseText_without_lt; unfold mentions_resolved; cbn [mentions content fold_left].
    all: replace (before +:+ "<@" +:+ id u +:+ ">" +:+ after)
           with (before +:+ String "<" ("@" +:+ id u +:+ ">") +:+ after)
           by (cbn [String.append]; now rewrite string_append_assoc).
    all: change ("<@" +:+ id u +:+ ">") with (String "<" ("@" +:+ id u +:+ ">")).
    all: change ("<@!" +:+ id u +:+ ">") with (String "<" ("@!" +:+ id u +:+ ">")).
    all: rewrite (replace_after "<" _ _ before after Hb Hrepl).
    all: rewrite (replace_absent "<" _ _ _ Hout).
    + reflexivity.
    + exact Hout.
  - assert (Hfirst :
      replace (String "<" ("@" +:+ id u +:+ ">")) ("@" +:+ username u)
        (before +:+ String "<" ("@!" +:+ id u +:+ ">") +:+ after)
      = before +:+ String "<" ("@!" +:+ id u +:+ ">") +:+ after).
    { unfold replace.
      change (String "<" ("@!" +:+ id u +:+ ">") +:+ after)
        with (String "<" (("@!" +:+ id u +:+ ">") +:+ after)).
      rewrite index_not_here; [reflexivity | exact Hb | |].
      - cbn [String.append]. rewrite !prefix_cons. cbn [Ascii.eqb Bool.eqb].
        destruct (id u) as [|d r]; cbn [String.append]; rewrite prefix_cons.
        + reflexivity.
        + simpl in Hid. apply andb_true_iff in Hid. destruct Hid as [Hdg _].
          now rewrite (digit_not_bang d Hdg).
      - cbn [String.append]. rewrite !has_char_cons, !has_char_append, Hidlt, Ha.
        reflexivity. }
    rewrite parseText_without_lt; unfold mentions_resolved; cbn [mentions content fold_left].
    all: replace (before +:+ "<@!" +:+ id u +:+ ">" +:+ after)
           with (before +:+ String "<" ("@!" +:+ id u +:+ ">") +:+ after)
           by (cbn [String.append]; now rewrite string_append_assoc).
    all: change ("<@" +:+ id u +:+ ">") with (String "<" ("@" +:+ id u +:+ ">")).
    all: change ("<@!" +:+ id u +:+ ">") with (String "<" ("@!" +:+ id u +:+ ">")).
    all: rewrite Hfirst.
    all: rewrite (replace_after "<" _ _ before after Hb Hrepl).
    + reflexivity.
    + exact Hout.
Qed.

Lemma parseText_resolves_mention_witness :
  parseText Sample.bot
    {| author := Sample.alice; channel := Sample.general;
       content := "ping <@!3>, are you there?";
       mentions := [Sample.bob]; attachments := None |}
  = Ok "ping @bob, are you there?".
Proof.
  refine (proj2 (parseText_resolves_mention Sample.bot Sample.alice Sample.general None
                   Sample.bob "ping " ", are you there?" _ _ _ _ _)); reflexivity.
Defined.

Lemma replace_global_fn_throws matcher callback e s :
  forall skip,
    replace_global_fn_from matcher callback skip s = Throw e ->
    exists before t n capture,
      s = before +:+ t /\ matcher t = Some (n, capture) /\ callback capture = Throw e.
Proof.
  induction s as [|c s IH]; intros skip; [discriminate|].
  cbn [replace_global_fn_from].
  assert (Hlater : forall k, replace_global_fn_from matcher callback k s = Throw e ->
            exists before t n capture,
              String c s = before +:+ t /\ matcher t = Some (n, capture)
              /\ callback capture = Throw e).
  { intros k Hk. destruct (IH k Hk) as (before & t & n & capture & -> & Hm & Hcb).
    exists (String c before), t, n, capture. repeat split; assumption. }
  destruct skip as [|k]; [|apply Hlater].
  destruct (matcher (String c s)) as [[n capture]|] eqn:Em.
  - destruct (callback capture) as [r|e'] eqn:Ecb.
    + destruct (replace_global_fn_from matcher callback (pred n) s) eqn:Er; [discriminate|].
      intros H. injection H as ->. now apply (Hlater (pred n)).
    + intros H. injection H as ->. exists "", (String c s), n, capture. repeat split; assumption.
  - destruct (replace_global_fn_from matcher callback 0 s) eqn:Er; [discriminate|].
    intros H. injection H as ->. now apply (Hlater 0).
Qed.

Lemma span_spec p s a b :
  span p s = (a, b) -> s = a +:+ b /\ forallb p (chars a) = true.
Proof.
  revert a b. induction s as [|c s IH]; intros a b; simpl.
  - intros H. injection H as <- <-. split; reflexivity.
  - destruct (p c) eqn:Ep.
    + destruct (span p s) as [run rest]. intros H. injection H as <- <-.
      destruct (IH run rest eq_refl) as [-> Hrun]. simpl. now rewrite Ep, Hrun.
    + intros H. injection H as <- <-. split; reflexivity.
Qed.

Lemma channel_ref_at_hash c s :
  Ascii.eqb "#" c = false -> channel_ref_at (String "<" (String c s)) = None.
Proof. destruct c as [[] [] [] [] [] [] [] []]; try reflexivity; discriminate. Qed.

Lemma channel_ref_at_close run c rest t :
  Ascii.eqb ">" c = false ->
  span is_digit t = (run, String c rest) ->
  channel_ref_at (String "<" (String "#" t)) = None.
Proof.
  intros Hc Hs. cbn [channel_ref_at]. rewrite Hs.
  destruct run; [reflexivity|].
  destruct c as [[] [] [] [] [] [] [] []]; try reflexivity; discriminate.
Qed.

(** A match of the channel-reference expression is the token [<#id>] with
    a non-empty numeric id, which is what it captures. *)
Lemma channel_ref_at_token t n channelId :
  channel_ref_at t = Some (n, channelId) ->
  exists rest,
    t = "<#" +:+ channelId +:+ ">" +:+ rest
    /\ channelId <> ""
    /\ forallb is_digit (chars channelId) = true
    /\ n = String.length ("<#" +:+ channelId +:+ ">").
Proof.
  destruct t as [|c1 t]; [discriminate|].
  destruct (Ascii.eqb "<" c1) eqn:E1; [|now rewrite channel_ref_at_other].
  apply Ascii.eqb_eq in E1. subst c1.
  destruct t as [|c2 t]; [discriminate|].
  destruct (Ascii.eqb "#" c2) eqn:E2; [|now rewrite channel_ref_at_hash].
  apply Ascii.eqb_eq in E2. subst c2.
  destruct (span is_digit t) as [run rest] eqn:Es.
  destruct rest as [|c3 rest].
  { cbn [channel_ref_at]. rewrite Es. destruct run; discriminate. }
  destruct (Ascii.eqb ">" c3) eqn:E3; [|now rewrite (channel_ref_at_close _ _ _ _ E3 Es)].
  apply Ascii.eqb_eq in E3. subst c3.
  cbn [channel_ref_at]. rewrite Es. destruct run as [|d ds]; [discriminate|].
  intros H. injection H as <- <-.
  destruct (span_spec _ _ _ _ Es) as [-> Hdigits].
  exists rest. repeat split.
  - discriminate.
  - exact Hdigits.
  - cbn [String.append String.length]. rewrite string_length_append. simpl. lia.
Qed.

(** [parseText] fails in one way only: with the [TypeError] of reading the
    name of a missing channel, and only when the body, after the mentions
    and the line folding, has a token [<#id>] with a numeric id that the
    Discord client does not know. *)
Theorem parseText_fails_on_unknown_channel_only :
  forall b message e,
    parseText b message = Throw e ->
    e = TypeError "Cannot read property 'name' of null"
    /\ exists before channelId rest,
         fold_lines (mentions_resolved message)
         = before +:+ "<#" +:+ channelId +:+ ">" +:+ rest
         /\ channelId <> ""
         /\ forallb is_digit (chars channelId) = true
         /\ channels_get (discord b) "id" channelId = None.
Proof.
  intros b message e H.
  apply replace_global_fn_throws in H.
  destruct H as (before & t & n & channelId & Htext & Hm & Hcb).
  destruct (channels_get (discord b) "id" channelId) eqn:Eget; [discriminate|].
  injection Hcb as <-. split; [reflexivity|].
  destruct (channel_ref_at_token _ _ _ Hm) as (rest & -> & Hne & Hdigits & _).
  exists before, channelId, rest. repeat split; assumption.
Qed.

Lemma parseText_fails_on_unknown_channel_only_witness :
  exists before channelId rest,
    fold_lines "see <#7> and <#101>" = before +:+ "<#" +:+ channelId +:+ ">" +:+ rest
    /\ channelId <> ""
    /\ forallb is_digit (chars channelId) = true
    /\ channels_get Sample.client "id" channelId = None.
Proof.
  apply (parseText_fails_on_unknown_channel_only Sample.bot
           (Sample.message Sample.alice Sample.general "see <#7> and <#101>")
           (TypeError "Cannot read property 'name' of null")).
  reflexivity.
Defined.

Lemma fold_lines_LF s : fold_lines (String LF s) = String " " (fold_lines s).
Proof. reflexivity. Qed.

Lemma fold_lines_CRLF s : fold_lines (String CR (String LF s)) = String " " (fold_lines s).
Proof. reflexivity. Qed.

Lemma fold_lines_CR c s :
  Ascii.eqb c LF = false ->
  fold_lines (String CR (String c s)) = String " " (fold_lines (String c s)).
Proof.
  intros Hc. unfold fold_lines, replace_global.
  cbn [replace_global_from]. cbn [line_break_at]. rewrite Hc.
  rewrite Ascii.eqb_refl. change (Ascii.eqb CR LF) with false. reflexivity.
Qed.

Lemma fold_lines_other c s :
  is_line_break c = false -> fold_lines (String c s) = String c (fold_lines s).
Proof.
  intros Hc. unfold fold_lines, replace_global. cbn [replace_global_from].
  now rewrite (line_break_at_single_line c s Hc).
Qed.

(** Folding works on the two sides of a character that is no LF. *)
Lemma fold_lines_append a c s :
  Ascii.eqb c LF = false ->
  fold_lines (a +:+ String c s) = fold_lines a +:+ fold_lines (String c s).
Proof.
  intros Hc.
  assert (H : forall n a, String.length a <= n ->
                fold_lines (a +:+ String c s) = fold_lines a +:+ fold_lines (String c s)).
  { induction n as [|n IH]; intros [|x a'] Hn; try reflexivity; simpl in Hn; [lia|].
    destruct (Ascii.eqb x LF) eqn:Ex.
    { apply Ascii.eqb_eq in Ex. subst x. cbn [String.append].
      rewrite !fold_lines_LF, IH by lia. reflexivity. }
    destruct (Ascii.eqb x CR) eqn:Ey.
    - apply Ascii.eqb_eq in Ey. subst x. destruct a' as [|y a''].
      + cbn [String.append]. now rewrite fold_lines_CR.
      + cbn [String.append]. destruct (Ascii.eqb y LF) eqn:Eyl.
        * apply Ascii.eqb_eq in Eyl. subst y. simpl in Hn.
          rewrite !fold_lines_CRLF, IH by lia. reflexivity.
        * rewrite !fold_lines_CR by exact Eyl.
          change (String y (a'' +:+ String c s)) with (String y a'' +:+ String c s).
          rewrite IH by lia. reflexivity.
    - cbn [String.append]. rewrite !fold_lines_other by (unfold is_line_break; now rewrite Ex, Ey).
      rewrite IH by lia. reflexivity. }
  now apply (H (String.length a)).
Qed.

Lemma replace_global_fn_before callback before t :
  has_char "<" before = false ->
  replace_global_fn_from channel_ref_at callback 0 (before +:+ t)
  = match replace_global_fn_from channel_ref_at callback 0 t with
    | Ok out => Ok (before +:+ out)
    | Throw e => Throw e
    end.
Proof.
  induction before as [|c s IH]; intros Hno.
  - cbn [String.append]. now destruct (replace_global_fn_from _ _ 0 t).
  - rewrite has_char_cons in Hno. apply orb_false_iff in Hno. destruct Hno as [Hc Hs].
    cbn [String.append replace_global_fn_from].
    rewrite (channel_ref_at_other c _ Hc), (IH Hs).
    now destruct (replace_global_fn_from _ _ 0 t).
Qed.

Lemma replace_global_fn_skip matcher callback a b :
  replace_global_fn_from matcher callback (String.length a) (a +:+ b)
  = replace_global_fn_from matcher callback 0 b.
Proof.
  induction a as [|c a IH]; simpl; [now destruct b | exact IH].
Qed.

Lemma digit_not_close d : is_digit d = true -> Ascii.eqb d ">" = false.
Proof. destruct d as [[] [] [] [] [] [] [] []]; try reflexivity; discriminate. Qed.

Lemma span_digits channelId rest :
  forallb is_digit (chars channelId) = true ->
  span is_digit (channelId +:+ String ">" rest) = (channelId, String ">" rest).
Proof.
  induction channelId as [|d s IH]; intros Hd; [reflexivity|].
  simpl in Hd. apply andb_true_iff in Hd. destruct Hd as [Hd Hs].
  cbn [String.append span]. now rewrite Hd, (IH Hs).
Qed.

Lemma channel_ref_at_match channelId rest :
  channelId <> "" ->
  forallb is_digit (chars channelId) = true ->
  channel_ref_at (String "<" (String "#" (channelId +:+ String ">" rest)))
  = Some (3 + String.length channelId, channelId).
Proof.
  intros Hne Hd. cbn [channel_ref_at]. rewrite (span_digits _ _ Hd).
  destruct channelId; [congruence | reflexivity].
Qed.

Lemma single_line_digits s : forallb is_digit (chars s) = true -> single_line s = true.
Proof.
  induction s as [|d s IH]; [reflexivity|]. simpl. intros H.
  apply andb_true_iff in H. destruct H as [Hd Hs].
  rewrite single_line_cons, (IH Hs), andb_true_r.
  destruct d as [[] [] [] [] [] [] [] []]; try reflexivity; discriminate.
Qed.

Lemma mentions_resolved_not_here message before rest :
  content message = before +:+ String "<" (String "#" rest) ->
  has_char "<" before = false ->
  has_char "<" rest = false ->
  mentions_resolved message = content message.
Proof.
  intros Hc Hb Hr. unfold mentions_resolved. rewrite Hc.
  induction (mentions message) as [|u l IH]; [reflexivity|].
  cbn [fold_left].
  assert (Hkeep : forall p repl,
            replace (String "<" (String "@" p)) repl
              (before +:+ String "<" (String "#" rest))
            = before +:+ String "<" (String "#" rest)).
  { intros p repl. unfold replace. rewrite index_not_here; [reflexivity | exact Hb | |].
    - now rewrite !prefix_cons.
    - rewrite has_char_cons. exact Hr. }
  change ("<@" +:+ id u +:+ ">") with (String "<" (String "@" (id u +:+ ">"))).
  change ("<@!" +:+ id u +:+ ">") with (String "<" (String "@" ("!" +:+ id u +:+ ">"))).
  rewrite !Hkeep. exact IH.
Qed.

(** The reference to a channel that the Discord client knows becomes [#]
    and the channel's name, whatever mentions the message carries; the
    text around the token, here without [<], is relayed with its line
    breaks folded. *)
Theorem parseText_resolves_channel_reference :
  forall b message before channelId after channel_,
    content message = before +:+ "<#" +:+ channelId +:+ ">" +:+ after ->
    has_char "<" before = false ->
    has_char "<" after = false ->
    channelId <> "" ->
    forallb is_digit (chars channelId) = true ->
    channels_get (discord b) "id" channelId = Some channel_ ->
    parseText b message
    = Ok (fold_lines before +:+ "#" +:+ name channel_ +:+ fold_lines after).
Proof.
  intros b message before channelId after channel_ Hc Hb Ha Hne Hd Hget.
  assert (Hidlt : has_char "<" channelId = false) by now apply digits_without_lt.
  assert (Hres : mentions_resolved message = content message).
  { apply (mentions_resolved_not_here message before (channelId +:+ ">" +:+ after)).
    - exact Hc.
    - exact Hb.
    - rewrite has_char_append, Hidlt. cbn [String.append]. rewrite has_char_cons.
      exact Ha. }
  change (parseText b message)
    with (replace_global_fn_from channel_ref_at
            (fun channelId =>
               match channels_get (discord b) "id" channelId with
               | Some channel_ => Ok ("#" +:+ name channel_)
               | None => Throw (TypeError "Cannot read property 'name' of null")
               end) 0 (fold_lines (mentions_resolved message))).
  rewrite Hres, Hc.
  change ("<#" +:+ channelId +:+ ">" +:+ after)
    with (String "<" (String "#" (channelId +:+ ">" +:+ after))).
  rewrite fold_lines_append by reflexivity.
  rewrite fold_lines_other by reflexivity.
  rewrite fold_lines_other by reflexivity.
  change (channelId +:+ ">" +:+ after) with (channelId +:+ String ">" after).
  assert (Htail : fold_lines (channelId +:+ String ">" after)
                  = channelId +:+ String ">" (fold_lines after)).
  { clear Hc Hres Hget Hne Hidlt. induction channelId as [|d s IH].
    - cbn [String.append]. now rewrite fold_lines_other.
    - simpl in Hd. apply andb_true_iff in Hd. destruct Hd as [Hd Hs].
      cbn [String.append]. rewrite fold_lines_other.
      + now rewrite (IH Hs).
      + pose proof (single_line_digits (String d "")) as H1. simpl in H1.
        rewrite Hd in H1. specialize (H1 eq_refl).
        rewrite single_line_cons in H1. apply andb_true_iff in H1.
        now apply negb_true_iff, H1. }
  rewrite Htail.
  rewrite replace_global_fn_before by (apply fold_lines_has_char; [reflexivity | exact Hb]).
  cbn [replace_global_fn_from].
  rewrite (channel_ref_at_match channelId (fold_lines after) Hne Hd), Hget.
  cbn [pred Nat.add].
  replace (S (String.length channelId)) with (String.length (channelId +:+ ">"))
    by (rewrite string_length_append; simpl; lia).
  replace (channelId +:+ String ">" (fold_lines after))
    with ((channelId +:+ ">") +:+ fold_lines after)
    by (now rewrite string_append_assoc).
  rewrite replace_global_fn_skip.
  rewrite replace_global_fn_absent by (apply fold_lines_has_char; [reflexivity | exact Ha]).
  now rewrite string_append_assoc.
Qed.

Lemma parseText_resolves_channel_reference_witness :
  parseText Sample.bot
    {| author := Sample.alice; channel := Sample.general;
       content := "see" +:+ String LF "<#101> please";
       mentions := [Sample.bob]; attachments := None |}
  = Ok "see #random please".
Proof.
  refine (parseText_resolves_channel_reference Sample.bot
            {| author := Sample.alice; channel := Sample.general;
               content := "see" +:+ String LF "<#101> please";
               mentions := [Sample.bob]; attachments := None |}
            ("see" +:+ String LF "") "101" " please" Sample.random
            eq_refl eq_refl eq_refl _ eq_refl eq_refl).
  discriminate.
Defined.

Lemma parseText_single_line b message out :
  (forall channelId ch, channels_get (discord b) "id" channelId = Some ch ->
                        single_line (name ch) = true) ->
  parseText b message = Ok out -> single_line out = true.
Proof.
  intros Hnames Hout. unfold parseText, replace_global_fn in Hout.
  eapply replace_global_fn_single_line; [| |exact Hout].
  - intros capture r. cbv beta.
    destruct (channels_get (discord b) "id" capture) as [ch|] eqn:E; [|discriminate].
    intros Hr. injection Hr as <-. exact (Hnames capture ch E).
  - apply fold_lines_from_single_line.
Qed.

(** No line break reaches IRC through a message: every line [sendToIRC]
    says is a single line, the body because [parseText] folds it, provided
    what the bridge does not transform is single-line itself: the names of
    the referenced channels, the author's name, plain and as shown, and the
    URLs of the attachments. *)
Theorem sendToIRC_says_single_lines :
  forall wrap b message,
    (forall channelId ch, channels_get (discord b) "id" channelId = Some ch ->
                          single_line (name ch) = true) ->
    single_line (username (author message)) = true ->
    single_line (displayUsername wrap b (username (author message))) = true ->
    (forall atts a, attachments message = Some atts -> In a atts ->
                    single_line (url a) = true) ->
    forall target text,
      In (IrcSay target text) (trace (sendToIRC wrap b message)) ->
      single_line text = true.
Proof.
  intros wrap b message Hnames Huser Hshown Hurls target said. unfold sendToIRC.
  destruct (String.eqb (id (author message)) (id (user (discord b)))); [intros []|].
  destruct (truthy (JsObject.get (channelMapping b) ("#" +:+ name (channel message))))
    as [ircChannel|]; [|cbn; intros [H | []]; discriminate].
  destruct (parseText b message) as [text|e'] eqn:Hbody;
    [|cbn; intros [H | []]; discriminate].
  pose proof (parseText_single_line b message text Hnames Hbody) as Htext.
  rewrite trace_bind. cbn [logger emit outcome trace fst snd app].
  rewrite trace_bind. cbn [lift outcome trace fst snd app].
  intros [H | Hin]; [discriminate|].
  destruct (isCommandMessage b text).
  - destruct (String.eqb (slice1 text) "names").
    { cbn in Hin. destruct Hin as [H | [H | []]]; discriminate. }
    destruct (String.eqb (slice1 text) "help").
    { apply sendToDiscord_trace_In in Hin. contradiction. }
    cbn in Hin. destruct Hin as [H | [H | []]]; injection H as _ <-.
    + change (single_line ("Command sent from Discord by "
                           +:+ username (author message) +:+ ":") = true).
      rewrite !single_line_append, Huser. reflexivity.
    + exact Htext.
  - rewrite trace_bind in Hin. apply in_app_or in Hin. destruct Hin as [Hin | Hin].
    + destruct (String.eqb text ""); cbn in Hin; [destruct Hin|].
      destruct Hin as [H | [H | []]]; [discriminate|]. injection H as _ <-.
      change (single_line ("<" +:+ displayUsername wrap b (username (author message))
                           +:+ "> " +:+ text) = true).
      rewrite !single_line_append, Hshown, Htext. reflexivity.
    + destruct (outcome _) as [u|]; [|destruct Hin].
      destruct (attachments message) as [[|att l]|] eqn:Eatt; try (destruct Hin; fail).
      apply forEach_trace_In in Hin. destruct Hin as [x [Hx Hin]].
      cbn in Hin. destruct Hin as [H | [H | []]]; [discriminate|]. injection H as _ <-.
      change (single_line ("<" +:+ displayUsername wrap b (username (author message))
                           +:+ "> " +:+ url x) = true).
      rewrite !single_line_append, Hshown, (Hurls _ x eq_refl Hx). reflexivity.
Qed.

Lemma sendToIRC_says_single_lines_witness :
  single_line "<[magenta]alice> one two" = true.
Proof.
  apply (sendToIRC_says_single_lines Sample.wrap Sample.bot
           (Sample.message Sample.alice Sample.general ("one" +:+ String CR (String LF "two")))
           sample_channel_names_single_line eq_refl eq_refl) with (target := "#relay").
  - intros atts a H. discriminate.
  - right. right. left. reflexivity.
Defined.

(** ** The mention step *)

(** For each carried user the mention step replaces one token of each
    syntax, the first: when the text before the first plain token has no
    [<] and the username has no dollar sign, that token becomes
    [@username] and the text behind it is left to the nickname syntax
    alone, whatever it holds. A body that has neither token of the user
    is not changed. *)
Theorem mention_step_replaces_first_token :
  forall a ch atts u before after,
    has_char "<" before = false ->
    has_char "$" (username u) = false ->
    mentions_resolved {| author := a; channel := ch;
                         content := before +:+ "<@" +:+ id u +:+ ">" +:+ after;
                         mentions := [u]; attachments := atts |}
    = replace ("<@!" +:+ id u +:+ ">") ("@" +:+ username u)
        (before +:+ "@" +:+ username u +:+ after)
    /\ (has_char "<" after = false -> has_char "<" (username u) = false ->
        mentions_resolved {| author := a; channel := ch;
                             content := before +:+ "<@" +:+ id u +:+ ">" +:+ after;
                             mentions := [u]; attachments := atts |}
        = before +:+ "@" +:+ username u +:+ after)
    /\ mentions_resolved {| author := a; channel := ch; content := before;
                            mentions := [u]; attachments := atts |}
       = before.
Proof.
  intros a ch atts u before after Hb Hd.
  assert (Hrepl : has_char "$" ("@" +:+ username u) = false)
    by (cbn [String.append]; rewrite has_char_cons; exact Hd).
  assert (Hfirst :
    replace ("<@" +:+ id u +:+ ">") ("@" +:+ username u)
      (before +:+ "<@" +:+ id u +:+ ">" +:+ after)
    = before +:+ "@" +:+ username u +:+ after).
  { replace (before +:+ "<@" +:+ id u +:+ ">" +:+ after)
      with (before +:+ String "<" ("@" +:+ id u +:+ ">") +:+ after)
      by (cbn [String.append]; now rewrite string_append_assoc).
    change ("<@" +:+ id u +:+ ">") with (String "<" ("@" +:+ id u +:+ ">")).
    apply (replace_after "<" _ _ before after Hb Hrepl). }
  split; [|split].
  - unfold mentions_resolved. cbn [mentions content fold_left]. now rewrite Hfirst.
  - intros Ha Hu. unfold mentions_resolved. cbn [mentions content fold_left].
    rewrite Hfirst. apply (replace_absent "<").
    rewrite !has_char_append, Hb, Ha. cbn [String.append]. rewrite has_char_cons, Hu.
    reflexivity.
  - apply mentions_resolved_absent. exact Hb.
Qed.

Lemma mention_step_replaces_first_token_witness :
  mentions_resolved {| author := Sample.alice; channel := Sample.general;
                       content := "hi <@3>, <@3> and <@!3>";
                       mentions := [Sample.bob]; attachments := None |}
  = "hi @bob, <@3> and @bob".
Proof.
  etransitivity.
  - exact (proj1 (mention_step_replaces_first_token Sample.alice Sample.general None
                    Sample.bob "hi " ", <@3> and <@!3>" eq_refl eq_refl)).
  - reflexivity.
Defined.

(** ** Line folding in the transform *)

(** C7. [parseText] folds the line breaks of every body: it runs the line
    folding on the body, after the mentions and before the channel
    references. The folding turns an LF, a CR LF pair and a lone CR into
    one space each, keeps every other character and leaves no LF and no
    CR. So a body without [<] is returned with its line breaks folded,
    "line1 LF line2" as "line1 line2"; whatever [parseText] returns is a
    single line, the names of the referenced channels being single lines
    themselves; and it returns unless the folded body has a reference to a
    channel that the client does not know. *)
Theorem parseText_folds_line_breaks :
  (forall s, single_line (fold_lines s) = true)
  /\ (forall s, fold_lines (String LF s) = String " " (fold_lines s))
  /\ (forall s, fold_lines (String CR (String LF s)) = String " " (fold_lines s))
  /\ (forall s, (forall s', s <> String LF s') ->
                fold_lines (String CR s) = String " " (fold_lines s))
  /\ (forall c s, is_line_break c = false -> fold_lines (String c s) = String c (fold_lines s))
  /\ (forall b message,
        parseText b message
        = replace_global_fn channel_ref_at
            (fun channelId =>
               match channels_get (discord b) "id" channelId with
               | Some channel_ => Ok ("#" +:+ name channel_)
               | None => Throw (TypeError "Cannot read property 'name' of null")
               end)
            (fold_lines (mentions_resolved message)))
  /\ (forall b message,
        has_char "<" (content message) = false ->
        parseText b message = Ok (fold_lines (content message))
        /\ single_line (fold_lines (content message)) = true)
  /\ (forall b a ch,
        parseText b {| author := a; channel := ch;
                       content := "line1" +:+ String LF "line2";
                       mentions := []; attachments := None |} = Ok "line1 line2")
  /\ (forall b message,
        (forall channelId ch, channels_get (discord b) "id" channelId = Some ch ->
                              single_line (name ch) = true) ->
        forall out, parseText b message = Ok out -> single_line out = true)
  /\ (forall b message,
        (exists out, parseText b message = Ok out)
        \/ (exists before channelId rest,
              fold_lines (mentions_resolved message)
              = before +:+ "<#" +:+ channelId +:+ ">" +:+ rest
              /\ channels_get (discord b) "id" channelId = None)).
Proof.
  split; [intros s; apply fold_lines_from_single_line|].
  split; [reflexivity|].
  split; [reflexivity|].
  split.
  { intros s Hs. destruct s as [|c s]; [reflexivity|].
    apply fold_lines_CR. destruct (Ascii.eqb c LF) eqn:E; [|reflexivity].
    apply Ascii.eqb_eq in E. subst c. exfalso. now apply (Hs s). }
  split; [exact fold_lines_other|].
  split; [reflexivity|].
  split.
  { intros b message Hno. split; [|apply fold_lines_from_single_line].
    rewrite parseText_without_lt; rewrite mentions_resolved_absent; auto. }
  split; [reflexivity|].
  split; [intros b message Hnames out; now apply parseText_single_line|].
  intros b message. destruct (parseText b message) as [out|e] eqn:E; [left; eauto|].
  right. apply replace_global_fn_throws in E.
  destruct E as (before & t & n & channelId & Htext & Hm & Hcb).
  destruct (channels_get (discord b) "id" channelId) eqn:Eget; [discriminate|].
  destruct (channel_ref_at_token _ _ _ Hm) as (rest & -> & _).
  exists before, channelId, rest. split; assumption.
Qed.

Lemma parseText_folds_line_breaks_witness :
  fold_lines (String CR "x") = " x"
  /\ fold_lines "ab" = "ab"
  /\ parseText Sample.bot
       {| author := Sample.alice; channel := Sample.general;
          content := "one" +:+ String CR (String LF ("two" +:+ String CR "three @bob"));
          mentions := [Sample.bob]; attachments := None |}
     = Ok "one two three @bob"
  /\ single_line "a see #random" = true.
Proof.
  destruct parseText_folds_line_breaks
    as (_ & _ & _ & Hcr & Hother & _ & Hplain & _ & Hline & _).
  split; [apply (Hcr "x"); discriminate|].
  split; [apply (Hother "a"%char "b"); reflexivity|].
  split.
  - match goal with |- parseText ?b ?m = _ => exact (proj1 (Hplain b m eq_refl)) end.
  - apply (Hline Sample.bot
             (Sample.message Sample.alice Sample.general
                ("a" +:+ String CR (String LF "see <#101>")))
             sample_channel_names_single_line).
    reflexivity.
Defined.
